(** * neurax: network indexing, the network step, SWC branches and channel names

    A shallow embedding of [neurax/modules/network.py] ([Network.__getattr__],
    [Network.init_morph], [Network.step]), of [neurax/utils/swc.py]
    ([_split_into_branches], [_remove_single_branch_artifacts],
    [_build_parents], [_extract_endpoint_radiuses]) and of
    [jaxley/channels/channel.py] ([Channel.__init__], [get_name],
    [change_name]), with the properties of these functions that the
    specification states, and further properties read off the code. *)

From stdpp Require Import base option list strings gmap sorting.
From Stdlib Require Import ZArith Lia Ascii.

(** ** Python results

    A call either returns a value or raises.  [UserError] stands for an
    exception class that is not a Python builtin, named by its class name. *)

Inductive exn : Type :=
  | AssertionError
  | AttributeError
  | IndexError
  | KeyError
  | TypeError
  | ValueError
  | OverflowError
  | UserError (name : string).

Inductive result (A : Type) : Type :=
  | Ok (a : A)
  | Raise (e : exn).
Arguments Ok {A} a.
Arguments Raise {A} e.

#[global] Instance result_ret : MRet result := @Ok.
#[global] Instance result_bind : MBind result :=
  λ A B f m, match m with Ok a => f a | Raise e => Raise e end.


(** [l[i]] on a Python list and [d[k]] on a Python dict. *)
Definition py_index {A} (l : list A) (i : nat) : result A :=
  match l !! i with Some x => Ok x | None => Raise IndexError end.

Definition py_getitem {A} (d : gmap string A) (k : string) : result A :=
  match d !! k with Some x => Ok x | None => Raise KeyError end.

(** ** neurax/utils/swc.py *)

Module Swc.

(** [b[-1]] and [b[0]] on a Python list. *)
Definition py_last (b : list Z) : result Z :=
  match last b with Some x => Ok x | None => Raise IndexError end.

Definition py_first (b : list Z) : result Z :=
  match head b with Some x => Ok x | None => Raise IndexError end.

(** [np.where(np.asarray(xs) == v)[0]]: the positions holding [v], ascending. *)
Fixpoint where_eq_from (k : nat) (xs : list Z) (v : Z) : list nat :=
  match xs with
  | [] => []
  | x :: xs' =>
      if bool_decide (x = v) then k :: where_eq_from (S k) xs' v
      else where_eq_from (S k) xs' v
  end.

Definition np_where_eq (xs : list Z) (v : Z) : list nat := where_eq_from 0 xs v.





(** A row of the SWC table, as far as the branch functions read it: its
    first column [c[0]], the index of the node, and its last column [c[-1]],
    the index of the parent node.  Both columns hold integers. *)
Record Row : Type := { ind : Z; parent : Z }.

(** The first loop of [_split_into_branches], with its three variables:
    the parent of every row whose parent is not the row before it. *)
Fixpoint split_first_loop (content : list Row) (prev_ind : option Z)
    (n_branches : nat) (branch_inds : list Z) : nat * list Z :=
  match content with
  | [] => (n_branches, branch_inds)
  | c :: rest =>
      let current_ind := ind c in
      let current_parent := parent c in
      if decide (Some current_parent ≠ prev_ind)
      then split_first_loop rest (Some current_ind) (S n_branches)
             (branch_inds ++ [current_parent])
      else split_first_loop rest (Some current_ind) n_branches branch_inds
  end.

(** The second loop, with [branch_starts] for [branch_inds[1:]]. *)
Fixpoint split_second_loop (content : list Row) (branch_starts : list Z)
    (all_branches : list (list Z)) (current_branch : list Z)
    : list (list Z) * list Z :=
  match content with
  | [] => (all_branches, current_branch)
  | c :: rest =>
      let current_ind := ind c in
      let current_parent := parent c in
      if decide (current_parent ∈ branch_starts)
      then split_second_loop rest branch_starts (all_branches ++ [current_branch])
             [current_parent; current_ind]
      else split_second_loop rest branch_starts all_branches
             (current_branch ++ [current_ind])
  end.

Definition split_branch_starts (content : list Row) : list Z :=
  drop 1 (split_first_loop content None 0 []).2.

(** The nodes the branches list: the entries of the first branch, and the
    entries of every other branch but its first, which is its parent. *)
Definition own_nodes (branches : list (list Z)) : list Z :=
  match branches with
  | [] => []
  | b :: rest => b ++ concat (drop 1 <$> rest)
  end.

(** A branch behind the first one: a parent index that starts a branch, then
    the nodes; [Q] holds of the parent and the first node. *)
Definition later_branch (Q : Z → Z → Prop) (branch_starts : list Z) (b : list Z) : Prop :=
  ∃ p i rest, b = p :: i :: rest ∧ p ∈ branch_starts ∧ Q p i.

Definition _split_into_branches (content : list Row) : list (list Z) :=
  let '(all_branches, current_branch) :=
    split_second_loop content (split_branch_starts content) [] [] in
  all_branches ++ [current_branch].

(** [np.unique(xs, return_counts=True)]: the values of [xs] in ascending
    order, each with the number of its occurrences. *)
Fixpoint unique_insert (v : Z) (acc : list (Z * nat)) : list (Z * nat) :=
  match acc with
  | [] => [(v, 1)]
  | (w, n) :: acc' =>
      if decide (v = w) then (w, S n) :: acc'
      else if decide (v < w)%Z then (v, 1) :: (w, n) :: acc'
      else (w, n) :: unique_insert v acc'
  end.

Definition np_unique_counts (xs : list Z) : list (Z * nat) :=
  foldr unique_insert [] xs.

(** The count that [np.unique] gives for [v], 0 when [v] is not listed. *)
Fixpoint count_of (acc : list (Z * nat)) (v : Z) : nat :=
  match acc with
  | [] => 0
  | (w, n) :: acc' => if decide (w = v) then n else count_of acc' v
  end.

(** The table of [np.unique]: ascending values, counts of at least one. *)
Definition unique_table (acc : list (Z * nat)) : Prop :=
  StronglySorted (λ a b, (a.1 < b.1)%Z) acc ∧ Forall (λ a, 1 ≤ a.2) acc.

(** The number of entries of [xs] equal to [v]. *)
Definition occurrences (v : Z) (xs : list Z) : nat := length (filter (λ x, x = v) xs).

(** [vals[counts == 1]] for [vals, counts = np.unique(first_val[1:], ...)]. *)
Definition one_vals (first_val : list Z) : list Z :=
  (filter (λ vc, vc.2 = 1) (np_unique_counts (drop 1 first_val))).*1.

(** One round of the loop of [_remove_single_branch_artifacts].  [first_val]
    is computed once, before the loop, and is not renewed. *)
Definition fuse_solo_branch (first_val : list Z) (branches : list (list Z))
    (one_val : Z) : result (list (list Z)) :=
  loc ← py_index (np_where_eq first_val one_val) 0;
  solo_branch ← py_index branches loc;
  let branches := delete loc branches in
  mapM (λ b, e ← py_last b; Ok (if decide (e = one_val) then b ++ solo_branch else b))
    branches.

Fixpoint fuse_loop (first_val : list Z) (vals : list Z) (branches : list (list Z))
    : result (list (list Z)) :=
  match vals with
  | [] => Ok branches
  | one_val :: vals' =>
      branches' ← fuse_solo_branch first_val branches one_val;
      fuse_loop first_val vals' branches'
  end.

Definition _remove_single_branch_artifacts (branches : list (list Z))
    : result (list (list Z)) :=
  first_val ← mapM py_first branches;
  fuse_loop first_val (one_vals first_val) branches.

(** [a[i]] on a NumPy array with an integer [i]: a negative index counts from
    the end. *)
Definition np_index {A} (a : list A) (i : Z) : result A :=
  let n := Z.of_nat (length a) in
  let i' := if decide (i < 0)%Z then (i + n)%Z else i in
  if decide (0 ≤ i' < n)%Z then py_index a (Z.to_nat i') else Raise IndexError.

Definition _extract_endpoint_radiuses {A} (all_branches : list (list Z))
    (radiuses : list A) : result (list A) :=
  mapM (λ b, branch_endpoint ← py_last b;
             let ind_of_branch_endpoint := (branch_endpoint - 1)%Z in
             np_index radiuses ind_of_branch_endpoint)
    all_branches.

End Swc.

(** ** Arrays

    The JAX and NumPy operations the network code calls, on lists.  Integer
    arrays made by [jnp] hold 32-bit signed integers (JAX's default integer
    type); their arithmetic wraps around. *)

Module Jnp.

Definition int_min : Z := (- 2 ^ 31)%Z.
Definition int_max : Z := (2 ^ 31 - 1)%Z.

Definition in_range (z : Z) : Prop := (int_min ≤ z ≤ int_max)%Z.

Definition wrap (z : Z) : Z := ((z + 2 ^ 31) `mod` 2 ^ 32 - 2 ^ 31)%Z.

#[global] Instance in_range_dec (z : Z) : Decision (in_range z).
Proof. unfold in_range. apply _. Defined.

(** [jnp.asarray] on a list of Python integers, which refuses an integer
    outside the range of the array's type. *)
Definition asarray (l : list Z) : result (list Z) :=
  if decide (Forall in_range l) then Ok l else Raise OverflowError.

(** [jnp.asarray] on an integer array, whose entries are converted. *)
Definition asarray_of_array (l : list Z) : list Z := wrap <$> l.

(** [jnp.cumsum]. *)
Fixpoint cumsum_from (acc : Z) (l : list Z) : list Z :=
  match l with
  | [] => []
  | x :: l' => let s := wrap (acc + x) in s :: cumsum_from s l'
  end.

Definition cumsum (l : list Z) : list Z := cumsum_from 0 l.

(** [p.at[1:].add(c)]: every entry but the first is increased by [c]. *)
Definition at_from1_add (p : list Z) (c : Z) : list Z :=
  match p with
  | [] => []
  | x :: t => x :: ((λ y, wrap (y + c)) <$> t)
  end.

(** [jnp.concatenate], which refuses an empty sequence of arrays. *)
Definition concatenate {A} (arrs : list (list A)) : result (list A) :=
  match arrs with
  | [] => Raise ValueError
  | _ :: _ => Ok (concat arrs)
  end.

(** [x[idx]] with an index array [idx] on a non-empty array [x]: a negative
    index counts from the end, and an index outside the array is clamped to
    its bounds.  (On an empty [x] every entry of the result is 0 here.) *)
Definition getitem (x : list Z) (idx : list Z) : list Z :=
  (λ i : Z,
     let n := Z.of_nat (length x) in
     let i' := if bool_decide (i < 0)%Z then (i + n)%Z else i in
     nth (Z.to_nat (Z.max 0 (Z.min i' (n - 1)))) x 0%Z) <$> idx.

(** The first dimension handed to [jnp.reshape] by [Network.step] is the
    attribute [nbranches].  [Network.init_morph] stores the list of the cells'
    branch counts there; an array dimension has to be an integer. *)
Inductive branch_count : Type :=
  | BCInt (n : nat)
  | BCList (ns : list nat).

(** The rows of a row-major [n] by [m] array. *)
Fixpoint rows {A} (n m : nat) (a : list A) : list (list A) :=
  match n with
  | 0 => []
  | S n' => take m a :: rows n' m (drop m a)
  end.

(** [jnp.reshape(a, (d, m))]: a [TypeError] when [d] is not an integer or when
    the sizes disagree. *)
Definition reshape {A} (a : list A) (d : branch_count) (m : nat) : result (list (list A)) :=
  match d with
  | BCInt n => if decide (length a = n * m) then Ok (rows n m a) else Raise TypeError
  | BCList _ => Raise TypeError
  end.

(** [x + y] on two arrays of one shape. *)
Definition add2 {A} (add : A → A → A) (x y : list (list A)) : list (list A) :=
  zip_with (zip_with add) x y.

(** [a.flatten(order="C")]. *)
Definition flatten {A} (a : list (list A)) : list A := concat a.

End Jnp.

(** ** neurax/modules/network.py *)

(** The attributes of a [Cell] that [Network] reads. *)
Module Cell.
Record t : Type := {
  nseg : nat;
  nbranches : nat;
  parents : list Z;
  parents_in_each_level : list (list Z);
  branches_in_each_level : list (list Z);
}.
End Cell.

(** The table [self.nodes], column by column as [init_morph] builds it. *)
Record NodesTable : Type := {
  comp_index : list nat;
  branch_index : list nat;
  cell_index : list nat;
}.

(** [pd.DataFrame(dict(...))] refuses columns of different lengths. *)
Definition DataFrame (comp branch cell : list nat) : result NodesTable :=
  if decide (length comp = length branch ∧ length branch = length cell)
  then Ok {| comp_index := comp; branch_index := branch; cell_index := cell |}
  else Raise ValueError.

(** The attributes [init_morph] assigns. *)
Record Morph : Type := {
  nbranches : Jnp.branch_count;
  cumsum_num_branches : list Z;
  max_num_kids : Z;
  comb_parents : list Z;
  comb_parents_in_each_level : list (list Z);
  comb_branches_in_each_level : list (list Z);
  comb_cum_kid_inds : list Z;
  comb_cum_kid_inds_in_each_level : list (list Z);
  nodes : NodesTable;
}.

(** The values the network code only passes on: floating-point scalars with
    their addition, channel and synapse descriptions, conductance arrays and
    the synaptic index structures of a [Connectivity]. *)
Class Objects : Type := {
  V : Type;
  vadd : V → V → V;
  Channels : Type;
  SynChannels : Type;
  Conds : Type;
  SynIndex : Type;
}.

(** The global state [u] and the parameters: dictionaries of arrays. *)
Abbreviation State := (gmap string (list V)).

(** ** jaxley/channels/channel.py *)

Module Channel.
Section Channel.
Context `{Objects} {U P X Y : Type}.

(** The static methods [update_states(u, dt, voltages, params)] and
    [compute_current(u, voltages, params)] of a channel, on the state [U],
    the voltage and the parameters [P] of one compartment. *)
Record Kinetics : Type := {
  update_states : U → V → V → P → X;
  compute_current : U → V → P → Y;
}.

(** The attributes [Channel.__init__] assigns. *)
Record t : Type := {
  vmaped_update_states : list U → V → list V → list P → result (list X);
  vmapped_compute_current : U → list V → P → list Y;
}.

(** [vmap(f, in_axes=(0, None, 0, 0))] maps [f] over the first axis of its
    first, third and fourth argument, which have to be of one size, and
    shares the second; [vmap(f, in_axes=(None, 0, None))] maps over the
    second argument only. *)
Definition __init__ (self : Kinetics) : t :=
  {| vmaped_update_states := λ u dt voltages params,
       if decide (length u = length voltages ∧ length voltages = length params)
       then Ok (zip_with (λ uv p, update_states self uv.1 dt uv.2 p)
                  (zip u voltages) params)
       else Raise ValueError;
     vmapped_compute_current := λ u voltages params,
       (λ v, compute_current self u v params) <$> voltages |}.

End Channel.

(** [key.find("_")]: the position of the first underscore, [None] for the
    [-1] of a key without underscore. *)
Fixpoint str_find_underscore (key : string) : option nat :=
  match key with
  | EmptyString => None
  | String c key' =>
      if decide (c = "_"%char) then Some 0 else S <$> str_find_underscore key'
  end.

(** [key[n:]] for [n >= 0] and [key[-1:]]. *)
Fixpoint str_drop (n : nat) (key : string) : string :=
  match n, key with
  | 0, _ => key
  | S n', String _ key' => str_drop n' key'
  | S _, EmptyString => EmptyString
  end.

Fixpoint str_last (key : string) : string :=
  match key with
  | EmptyString => EmptyString
  | String c EmptyString => String c EmptyString
  | String _ key' => str_last key'
  end.

(** [new_name + key[key.find("_"):]]. *)
Definition renamed_key (new_name key : string) : string :=
  new_name +:+
  match str_find_underscore key with
  | Some n => str_drop n key
  | None => str_last key
  end.

Section Names.
Context {A : Type}.

(** A Python [dict] with string keys: its items in insertion order, every key
    once.  [d[k] = v] replaces the value of a key that is there and appends a
    new key. *)
Fixpoint dict_set (d : list (string * A)) (k : string) (v : A) : list (string * A) :=
  match d with
  | [] => [(k, v)]
  | (k', v') :: d' =>
      if decide (k' = k) then (k', v) :: d' else (k', v') :: dict_set d' k v
  end.

Fixpoint dict_get (d : list (string * A)) (k : string) : option A :=
  match d with
  | [] => None
  | (k', v') :: d' => if decide (k' = k) then Some v' else dict_get d' k
  end.

(** [{new_name + key[key.find("_"):]: value for key, value in d.items()}]. *)
Definition renamed_dict (new_name : string) (d : list (string * A)) : list (string * A) :=
  foldl (λ acc item, dict_set acc (renamed_key new_name item.1) item.2) [] d.

(** The three attributes [channel_name], [channel_params] and
    [channel_states]; each is [None] on the class [Channel] itself. *)
Record names : Type := {
  channel_name : option string;
  channel_params : option (list (string * A));
  channel_states : option (list (string * A));
}.

Definition get_name (self : names) : option string := channel_name self.

(** [Channel.change_name]: the object as the call leaves it, and whether the
    call returns.  [None.items()] raises [AttributeError]; the assignments
    made before it stay. *)
Definition change_name (self : names) (new_name : string) : names * result () :=
  match channel_params self with
  | None => (self, Raise AttributeError)
  | Some params =>
      let self1 :=
        {| channel_name := channel_name self;
           channel_params := Some (renamed_dict new_name params);
           channel_states := channel_states self |} in
      match channel_states self1 with
      | None => (self1, Raise AttributeError)
      | Some states =>
          ({| channel_name := Some new_name;
              channel_params := channel_params self1;
              channel_states := Some (renamed_dict new_name states) |}, Ok ())
      end
  end.

End Names.
End Channel.

Section Model.
Context `{Objects}.

Record Compartment : Type := { channels : Channels }.
Record Branch : Type := { compartments : list Compartment }.

(** A [Network] object.  The attributes of [init_morph] are absent ([None])
    until it has run.  A conductance attribute holds Python's [None] or a
    value.  The last seven attributes are read by [step] and assigned by none
    of the methods of [Network]: they come with the object. *)
Record Network : Type := {
  cells : list Cell.t;
  nseg : nat;
  pre_syn_inds : list SynIndex;
  pre_syn_cell_inds : list SynIndex;
  grouped_post_syn_inds : list SynIndex;
  grouped_post_syns : list SynIndex;
  initialized_morph : bool;
  initialized_conds : bool;
  morph : option Morph;
  coupling_conds_fwd : option Conds;
  coupling_conds_bwd : option Conds;
  branch_conds_fwd : option Conds;
  branch_conds_bwd : option Conds;
  summed_coupling_conds : option Conds;
  params : gmap string (list V);
  branches : list Branch;
  syn_channels : SynChannels;
  parents : list Z;
  kid_inds_in_each_level : list (list Z);
  parents_in_each_level : list (list Z);
  branches_in_each_level : list (list Z);
}.

(** [CellView(self, self.nodes)]. *)
Record CellView : Type := { pointer : Network; view : NodesTable }.

(** The keyword arguments of [self.step_voltages(...)]. *)
Record SolveArgs : Type := {
  kw_voltages : list (list V);
  kw_voltage_terms : list (list V);
  kw_constant_terms : list (list V);
  kw_coupling_conds_bwd : option Conds;
  kw_coupling_conds_fwd : option Conds;
  kw_summed_coupling_conds : option Conds;
  kw_branch_cond_fwd : option Conds;
  kw_branch_cond_bwd : option Conds;
  kw_num_branches : Jnp.branch_count;
  kw_parents : list Z;
  kw_kid_inds_in_each_level : list (list Z);
  kw_max_num_kids : Z;
  kw_parents_in_each_level : list (list Z);
  kw_branches_in_each_level : list (list Z);
  kw_tridiag_solver : string;
  kw_delta_t : V;
}.

(** The functions [network.py] calls and does not define: the helpers of
    [neurax.cell], the methods inherited from [Module], [get_external_input]
    of [neurax.stimulus] and [_step_synapse] of [neurax.integrate].  Each is
    a function of its arguments that returns or raises. *)
Class Collaborators : Type := {
  merge_cells : list Z → list (list (list Z)) → option bool → result (list (list Z));
  _compute_index_of_kid : list Z → result (list Z);
  cum_indizes_of_kids : list (list Z) → Z → list Z → result (list (list Z));
  init_branch_conds : Network → result Network;
  step_channels :
    State → V → Channels → gmap string (list V) → result (list State * (list V * list V));
  get_external_input :
    list V → list Z → list V → list V → list V → result (list V);
  _step_synapse :
    State → SynChannels → gmap string (list V) → V → list Z →
    list SynIndex → list SynIndex → list SynIndex → list SynIndex → nat →
    result (State * list V * list V);
  step_voltages : SolveArgs → result (list (list V));
}.

End Model.

Section Methods.
Context `{O : Objects} {C : Collaborators}.

(** Reading an attribute that only [init_morph] assigns.  While it is
    unassigned the lookup falls through to [Network.__getattr__] with a name
    other than ["cell"], whose assertion fails. *)
Definition read_morph {A} (self : Network) (attribute : Morph → A) : result A :=
  match morph self with
  | Some m => Ok (attribute m)
  | None => Raise AssertionError
  end.

(** [Network.__getattr__], called by Python with the names that ordinary
    attribute lookup does not find. *)
Definition __getattr__ (self : Network) (key : string) : result CellView :=
  if decide (key = "cell") then
    nodes ← read_morph self nodes;
    Ok {| pointer := self; view := nodes |}
  else Raise AssertionError.

(** The object after [init_morph] has assigned its attributes. *)
Definition set_morph (self : Network) (m : Morph) : Network :=
  {| cells := cells self;
     nseg := nseg self;
     pre_syn_inds := pre_syn_inds self;
     pre_syn_cell_inds := pre_syn_cell_inds self;
     grouped_post_syn_inds := grouped_post_syn_inds self;
     grouped_post_syns := grouped_post_syns self;
     initialized_morph := true;
     initialized_conds := initialized_conds self;
     morph := Some m;
     coupling_conds_fwd := coupling_conds_fwd self;
     coupling_conds_bwd := coupling_conds_bwd self;
     branch_conds_fwd := branch_conds_fwd self;
     branch_conds_bwd := branch_conds_bwd self;
     summed_coupling_conds := summed_coupling_conds self;
     params := params self;
     branches := branches self;
     syn_channels := syn_channels self;
     parents := parents self;
     kid_inds_in_each_level := kid_inds_in_each_level self;
     parents_in_each_level := parents_in_each_level self;
     branches_in_each_level := branches_in_each_level self |}.

(** [Network.init_morph].  The result is the object with the new attributes.
    When a call raises, the exception leaves [init_morph]; the attributes
    assigned before it are not kept track of. *)
Definition init_morph (self : Network) : result Network :=
  let nbranches := Cell.nbranches <$> cells self in
  counts ← Jnp.asarray (0%Z :: (Z.of_nat <$> nbranches));
  let cumsum_num_branches := Jnp.cumsum counts in
  let max_num_kids := 4%Z in
  let parents := Cell.parents <$> cells self in
  comb_parents ←
    Jnp.concatenate
      (imap (λ i p, Jnp.at_from1_add p (nth i cumsum_num_branches 0%Z)) parents);
  comb_parents_in_each_level ←
    merge_cells cumsum_num_branches (Cell.parents_in_each_level <$> cells self) None;
  comb_branches_in_each_level ←
    merge_cells cumsum_num_branches (Cell.branches_in_each_level <$> cells self)
      (Some false);
  kids ←
    mapM (λ cell, k ← _compute_index_of_kid (Cell.parents cell);
                  Ok (Jnp.asarray_of_array k))
      (cells self);
  comb_ind_of_kids ← Jnp.concatenate kids;
  cum ← cum_indizes_of_kids [comb_ind_of_kids] max_num_kids [(-1)%Z; 0%Z];
  comb_cum_kid_inds ← py_index cum 0;
  let comb_ind_of_kids_in_each_level :=
    Jnp.getitem comb_ind_of_kids <$> comb_branches_in_each_level in
  comb_cum_kid_inds_in_each_level ←
    cum_indizes_of_kids comb_ind_of_kids_in_each_level max_num_kids [0%Z];
  let n := nseg self * sum_list nbranches in
  nodes ←
    DataFrame
      (seq 0 n)
      ((λ i, i / nseg self) <$> seq 0 n)
      (concat (imap (λ i b, replicate (nseg self * b) i) nbranches));
  Ok (set_morph self
        {| nbranches := Jnp.BCList nbranches;
           cumsum_num_branches := cumsum_num_branches;
           max_num_kids := max_num_kids;
           comb_parents := comb_parents;
           comb_parents_in_each_level := comb_parents_in_each_level;
           comb_branches_in_each_level := comb_branches_in_each_level;
           comb_cum_kid_inds := comb_cum_kid_inds;
           comb_cum_kid_inds_in_each_level := comb_cum_kid_inds_in_each_level;
           nodes := nodes |}).

(** The local variables of [Network.step] when it reaches the voltage solve. *)
Record Locals : Type := {
  voltages : list V;
  new_channel_states : list State;
  v_terms : list V;
  const_terms : list V;
  i_ext : list V;
  new_syn_states : State;
  syn_voltage_terms : list V;
  syn_constant_terms : list V;
}.

(** [Network.step] from [voltages = u["voltages"]] to the call of
    [_step_synapse]. *)
Definition step_locals (self : Network) (u : State) (dt : V)
    (i_inds : list Z) (i_current : list V) : result Locals :=
  voltages ← py_getitem u "voltages";
  branch ← py_index (branches self) 0;
  compartment ← py_index (compartments branch) 0;
  '(new_channel_states, (v_terms, const_terms)) ←
    step_channels u dt (channels compartment) (params self);
  radius ← py_getitem (params self) "radius";
  length ← py_getitem (params self) "length";
  i_ext ← get_external_input voltages i_inds i_current radius length;
  cumsum_num_branches ← read_morph self cumsum_num_branches;
  '(new_syn_states, syn_voltage_terms, syn_constant_terms) ←
    _step_synapse u (syn_channels self) (params self) dt cumsum_num_branches
      (pre_syn_cell_inds self) (pre_syn_inds self)
      (grouped_post_syn_inds self) (grouped_post_syns self) (nseg self);
  Ok {| voltages := voltages;
        new_channel_states := new_channel_states;
        v_terms := v_terms;
        const_terms := const_terms;
        i_ext := i_ext;
        new_syn_states := new_syn_states;
        syn_voltage_terms := syn_voltage_terms;
        syn_constant_terms := syn_constant_terms |}.

(** The keyword arguments [step] builds for [self.step_voltages].
    [nbranches'] and [nseg_per_branch] are the local variables [nbranches] and
    [nseg_per_branch] of [step]. *)
Definition step_solve_args (self : Network) (nbranches' : Jnp.branch_count)
    (nseg_per_branch : nat) (l : Locals) (dt : V) : result SolveArgs :=
  voltages2 ← Jnp.reshape (voltages l) nbranches' nseg_per_branch;
  v_terms2 ← Jnp.reshape (v_terms l) nbranches' nseg_per_branch;
  const_terms2 ← Jnp.reshape (const_terms l) nbranches' nseg_per_branch;
  i_ext2 ← Jnp.reshape (i_ext l) nbranches' nseg_per_branch;
  num_branches ← read_morph self nbranches;
  Ok {| kw_voltages := voltages2;
        kw_voltage_terms := v_terms2;
        kw_constant_terms := Jnp.add2 vadd const_terms2 i_ext2;
        kw_coupling_conds_bwd := coupling_conds_bwd self;
        kw_coupling_conds_fwd := coupling_conds_fwd self;
        kw_summed_coupling_conds := summed_coupling_conds self;
        kw_branch_cond_fwd := branch_conds_fwd self;
        kw_branch_cond_bwd := branch_conds_bwd self;
        kw_num_branches := num_branches;
        kw_parents := parents self;
        kw_kid_inds_in_each_level := kid_inds_in_each_level self;
        kw_max_num_kids := 4%Z;
        kw_parents_in_each_level := parents_in_each_level self;
        kw_branches_in_each_level := branches_in_each_level self;
        kw_tridiag_solver := "thomas";
        kw_delta_t := dt |}.

(** [Network.step] after the conductances are there.  The assignment
    [final_state["voltages"] = ...] updates the dictionary
    [new_channel_states[0]] in place; the result is the updated dictionary. *)
Definition step_body (self : Network) (nbranches' : Jnp.branch_count)
    (nseg_per_branch : nat) (u : State) (dt : V)
    (i_inds : list Z) (i_current : list V) : result State :=
  l ← step_locals self u dt i_inds i_current;
  kwargs ← step_solve_args self nbranches' nseg_per_branch l dt;
  new_voltages ← step_voltages kwargs;
  final_state ← py_index (new_channel_states l) 0;
  Ok (<["voltages" := Jnp.flatten new_voltages]> final_state).

(** [Network.step]: the object as the call leaves it, and what the call
    returns or raises. *)
Definition step (self : Network) (u : State) (dt : V)
    (i_inds : list Z) (i_current : list V) : Network * result State :=
  match read_morph self nbranches with
  | Raise e => (self, Raise e)
  | Ok nbranches' =>
      let nseg_per_branch := nseg self in
      let init :=
        match branch_conds_fwd self with
        | None => init_branch_conds self
        | Some _ => Ok self
        end in
      match init with
      | Raise e => (self, Raise e)
      | Ok self' =>
          (self', step_body self' nbranches' nseg_per_branch u dt i_inds i_current)
      end
  end.

(** The number of branches of the cells before cell [c], and of all cells. *)
Definition branch_offset (cs : list Cell.t) (c : nat) : nat :=
  sum_list (take c (Cell.nbranches <$> cs)).

Definition total_branches (cs : list Cell.t) : nat :=
  sum_list (Cell.nbranches <$> cs).

(** The number of parent entries of the cells before cell [c]. *)
Definition parents_offset (cs : list Cell.t) (c : nat) : nat :=
  sum_list (take c ((λ cell, length (Cell.parents cell)) <$> cs)).

End Methods.

(** ** Executions of [step] with collaborators that may vary

    To state that [step] adds no variation of its own, the collaborators it
    calls are given as relations between arguments and outcomes.  [step] calls
    each of them at most once, so an execution is [step] run with one outcome
    chosen for every call. *)

Section Executions.
Context `{O : Objects}.

Record Behaviours : Type := {
  may_init_branch_conds : Network → result Network → Prop;
  may_step_channels :
    State → V → Channels → gmap string (list V) →
    result (list State * (list V * list V)) → Prop;
  may_get_external_input :
    list V → list Z → list V → list V → list V → result (list V) → Prop;
  may_step_synapse :
    State → SynChannels → gmap string (list V) → V → list Z →
    list SynIndex → list SynIndex → list SynIndex → list SynIndex → nat →
    result (State * list V * list V) → Prop;
  may_step_voltages : SolveArgs → result (list (list V)) → Prop;
}.

(** [C] chooses, for every call, an outcome that [B] allows. *)
Definition resolves (C : Collaborators) (B : Behaviours) : Prop :=
  (∀ self, may_init_branch_conds B self (init_branch_conds self)) ∧
  (∀ u dt ch ps, may_step_channels B u dt ch ps (step_channels u dt ch ps)) ∧
  (∀ v ii ic r l,
     may_get_external_input B v ii ic r l (get_external_input v ii ic r l)) ∧
  (∀ u sc ps dt cs a b c d n,
     may_step_synapse B u sc ps dt cs a b c d n
       (_step_synapse u sc ps dt cs a b c d n)) ∧
  (∀ kw, may_step_voltages B kw (step_voltages kw)).

Definition step_may_yield (B : Behaviours) (self : Network) (u : State) (dt : V)
    (i_inds : list Z) (i_current : list V) (out : Network * result State) : Prop :=
  ∃ C : Collaborators, resolves C B ∧ step (C := C) self u dt i_inds i_current = out.


(** The behaviours of collaborators that are functions. *)
Definition behaviours_of (C : Collaborators) : Behaviours :=
  {| may_init_branch_conds := λ self r, r = init_branch_conds self;
     may_step_channels := λ u dt ch ps r, r = step_channels u dt ch ps;
     may_get_external_input := λ v ii ic rd l r, r = get_external_input v ii ic rd l;
     may_step_synapse := λ u sc ps dt cs a b c d n r,
                           r = _step_synapse u sc ps dt cs a b c d n;
     may_step_voltages := λ kw r, r = step_voltages kw |}.

(** Two sets of collaborators that return the same outcome on every call of
    [step]. *)
Definition same_calls (C1 C2 : Collaborators) : Prop :=
  (∀ self, init_branch_conds (Collaborators := C1) self
           = init_branch_conds (Collaborators := C2) self) ∧
  (∀ u dt ch ps, step_channels (Collaborators := C1) u dt ch ps
                 = step_channels (Collaborators := C2) u dt ch ps) ∧
  (∀ v ii ic r l, get_external_input (Collaborators := C1) v ii ic r l
                  = get_external_input (Collaborators := C2) v ii ic r l) ∧
  (∀ u sc ps dt cs a b c d n,
     _step_synapse (Collaborators := C1) u sc ps dt cs a b c d n
     = _step_synapse (Collaborators := C2) u sc ps dt cs a b c d n) ∧
  (∀ kw, step_voltages (Collaborators := C1) kw = step_voltages (Collaborators := C2) kw).


(** The synaptic terms are part of what the solver is given: per
    compartment, the voltage terms are the channel terms plus the synaptic
    terms, and the constant terms are the channel terms plus the synaptic
    terms plus the stimulus. *)
Definition synapse_terms_reach_solver (l : Locals) (kw : SolveArgs) : Prop :=
  Jnp.flatten (kw_voltage_terms kw)
  = zip_with vadd (v_terms l) (syn_voltage_terms l) ∧
  Jnp.flatten (kw_constant_terms kw)
  = zip_with vadd (zip_with vadd (const_terms l) (syn_constant_terms l)) (i_ext l).

(** The state [st] holds every synaptic state of [syn_states]. *)
Definition holds_synapse_states (syn_states st : State) : Prop :=
  ∀ name value, syn_states !! name = Some value → st !! name = Some value.

End Executions.

(** ** Defects of parent arrays

    The three defects of a parent array that the specification names. *)

Module Topology.







End Topology.

(** ** Concrete objects and collaborators

    Scalars are integers here (floating-point numbers with integer values,
    on which addition is exact); the objects that are only passed on are
    trivial. *)

Module Fixture.

Definition objects : Objects :=
  {| V := Z; vadd := Z.add;
     Channels := unit; SynChannels := unit; Conds := unit; SynIndex := unit |}.

#[local] Existing Instance objects.

(** Helpers of the indexing that return on every input.  [index_of_kid]
    gives every branch its position among the branches with the same
    parent. *)
Fixpoint index_of_kid_from (seen ps : list Z) : list Z :=
  match ps with
  | [] => []
  | p :: ps' =>
      Z.of_nat (length (filter (λ q, q = p) seen)) :: index_of_kid_from (seen ++ [p]) ps'
  end.

Definition index_of_kid (ps : list Z) : list Z := index_of_kid_from [] ps.

(** Level [k] of the merged grouping: level [k] of every cell, shifted by the
    cell's branch offset.  Unless [exclude_first] is [False], the root
    sentinel [-1] is not shifted. *)
Fixpoint zip_levels (a b : list (list Z)) : list (list Z) :=
  match a, b with
  | [], _ => b
  | _, [] => a
  | x :: a', y :: b' => (x ++ y) :: zip_levels a' b'
  end.

Definition shift_levels (offset : Z) (exclude_first : bool) (levels : list (list Z))
    : list (list Z) :=
  fmap (M := list)
    (fmap (M := list)
       (λ x, if exclude_first && bool_decide (x = -1)%Z then x else (x + offset)%Z))
    levels.

Definition merge (cumsum : list Z) (levels : list (list (list Z)))
    (exclude_first : option bool) : list (list Z) :=
  foldr zip_levels []
    (imap (λ c lv, shift_levels (nth c cumsum 0%Z) (default true exclude_first) lv) levels).

(** The slot of every kid: [max_num_kids] slots per parent, a new parent
    starting at every kid index listed in [reset_at]. *)
Fixpoint slots_from (parent : Z) (max_num_kids : Z) (reset_at : list Z) (kids : list Z)
    : list Z :=
  match kids with
  | [] => []
  | k :: kids' =>
      let parent' := if bool_decide (k ∈ reset_at) then (parent + 1)%Z else parent in
      (parent' * max_num_kids + k)%Z :: slots_from parent' max_num_kids reset_at kids'
  end.

Definition slots (levels : list (list Z)) (max_num_kids : Z) (reset_at : list Z)
    : list (list Z) :=
  slots_from (-1) max_num_kids reset_at <$> levels.

(** The object with its five conductance attributes assigned. *)
Definition with_conds (self : Network) : Network :=
  {| cells := cells self;
     nseg := nseg self;
     pre_syn_inds := pre_syn_inds self;
     pre_syn_cell_inds := pre_syn_cell_inds self;
     grouped_post_syn_inds := grouped_post_syn_inds self;
     grouped_post_syns := grouped_post_syns self;
     initialized_morph := initialized_morph self;
     initialized_conds := initialized_conds self;
     morph := morph self;
     coupling_conds_fwd := Some ();
     coupling_conds_bwd := Some ();
     branch_conds_fwd := Some ();
     branch_conds_bwd := Some ();
     summed_coupling_conds := Some ();
     params := params self;
     branches := branches self;
     syn_channels := syn_channels self;
     parents := parents self;
     kid_inds_in_each_level := kid_inds_in_each_level self;
     parents_in_each_level := parents_in_each_level self;
     branches_in_each_level := branches_in_each_level self |}.

(** Collaborators for running the model.  The channels leave the state as it
    is and contribute [2 v + 3] to every compartment, the stimulus adds [1],
    the synapse step advances the state ["syn_s"] to [9] and contributes
    [5 v + 7]; the solver returns the voltages it was given. *)
Definition collaborators : Collaborators :=
  {| merge_cells := λ cumsum levels exclude_first, Ok (merge cumsum levels exclude_first);
     _compute_index_of_kid := λ ps, Ok (index_of_kid ps);
     cum_indizes_of_kids := λ levels k reset_at, Ok (slots levels k reset_at);
     init_branch_conds := λ self, Ok (with_conds self);
     step_channels := λ u dt ch ps,
       Ok ([u], ((λ _, 2%Z) <$> default [] (u !! "voltages"),
                 (λ _, 3%Z) <$> default [] (u !! "voltages")));
     get_external_input := λ v ii ic r l, Ok ((λ _, 1%Z) <$> v);
     _step_synapse := λ u sc ps dt cs a b c d n,
       Ok (<["syn_s" := [9%Z]]> u,
           (λ _, 5%Z) <$> default [] (u !! "voltages"),
           (λ _, 7%Z) <$> default [] (u !! "voltages"));
     step_voltages := λ kw, Ok (kw_voltages kw) |}.

Definition cell (ps : list Z) : Cell.t :=
  {| Cell.nseg := 2;
     Cell.nbranches := length ps;
     Cell.parents := ps;
     Cell.parents_in_each_level := [];
     Cell.branches_in_each_level := [] |}.

(** A network of the given cells, two compartments per branch, without index
    structures and without conductances. *)
Definition network (cs : list Cell.t) : Network :=
  {| cells := cs;
     nseg := 2;
     pre_syn_inds := [];
     pre_syn_cell_inds := [];
     grouped_post_syn_inds := [];
     grouped_post_syns := [];
     initialized_morph := false;
     initialized_conds := true;
     morph := None;
     coupling_conds_fwd := None;
     coupling_conds_bwd := None;
     branch_conds_fwd := None;
     branch_conds_bwd := None;
     summed_coupling_conds := None;
     params := {[ "radius" := [1%Z]; "length" := [1%Z] ]};
     branches := [ {| compartments := [ {| channels := () |} ] |} ];
     syn_channels := ();
     parents := [(-1)%Z];
     kid_inds_in_each_level := [];
     parents_in_each_level := [];
     branches_in_each_level := [] |}.

(** Two cells of three and two branches. *)
Definition two_cells : Network :=
  network [ cell [(-1)%Z; 0%Z; 0%Z]; cell [(-1)%Z; 0%Z] ].


(** A network of one branch of one compartment whose attribute [nbranches]
    is the integer 1, with or without its conductances. *)
Definition one_compartment_morph : Morph :=
  {| nbranches := Jnp.BCInt 1;
     cumsum_num_branches := [0%Z; 1%Z];
     max_num_kids := 4;
     comb_parents := [(-1)%Z];
     comb_parents_in_each_level := [];
     comb_branches_in_each_level := [[0%Z]];
     comb_cum_kid_inds := [0%Z];
     comb_cum_kid_inds_in_each_level := [[0%Z]];
     nodes := {| comp_index := [0]; branch_index := [0]; cell_index := [0] |} |}.

Definition one_compartment_lazy : Network :=
  let self := network [ cell [(-1)%Z] ] in
  {| cells := cells self;
     nseg := 1;
     pre_syn_inds := pre_syn_inds self;
     pre_syn_cell_inds := pre_syn_cell_inds self;
     grouped_post_syn_inds := grouped_post_syn_inds self;
     grouped_post_syns := grouped_post_syns self;
     initialized_morph := true;
     initialized_conds := initialized_conds self;
     morph := Some one_compartment_morph;
     coupling_conds_fwd := None;
     coupling_conds_bwd := None;
     branch_conds_fwd := None;
     branch_conds_bwd := None;
     summed_coupling_conds := None;
     params := params self;
     branches := branches self;
     syn_channels := syn_channels self;
     parents := parents self;
     kid_inds_in_each_level := kid_inds_in_each_level self;
     parents_in_each_level := parents_in_each_level self;
     branches_in_each_level := branches_in_each_level self |}.

Definition one_compartment : Network := with_conds one_compartment_lazy.

(** A state with one voltage and one synaptic state. *)
Definition u0 : State := {[ "voltages" := [0%Z]; "syn_s" := [4%Z] ]}.

(** The objects and the state the methods leave. *)
Definition indexed (self : Network) : Network :=
  match init_morph (C := collaborators) self with
  | Ok self' => self'
  | Raise _ => self
  end.

Definition stepped (self : Network) : Network * result State :=
  step (C := collaborators) self u0 0%Z [] [].


Definition stepped_locals (self : Network) : result Locals :=
  step_locals (C := collaborators) self u0 0%Z [] [].

(** The same collaborators with a synapse step that changes no state and
    contributes nothing. *)
Definition collaborators_without_synapses : Collaborators :=
  {| merge_cells := merge_cells (Collaborators := collaborators);
     _compute_index_of_kid := _compute_index_of_kid (Collaborators := collaborators);
     cum_indizes_of_kids := cum_indizes_of_kids (Collaborators := collaborators);
     init_branch_conds := init_branch_conds (Collaborators := collaborators);
     step_channels := step_channels (Collaborators := collaborators);
     get_external_input := get_external_input (Collaborators := collaborators);
     _step_synapse := λ u sc ps dt cs a b c d n,
       Ok (u, (λ _, 0%Z) <$> default [] (u !! "voltages"),
              (λ _, 0%Z) <$> default [] (u !! "voltages"));
     step_voltages := step_voltages (Collaborators := collaborators) |}.

(** Three branches: the second and third start where the first ends. *)
Definition swc_branches : list (list Z) := [[1; 2; 3]; [3; 4]; [3; 5]]%Z.

(** An SWC table of six nodes with a branch point at node 3, and a table
    without branch point. *)
Definition swc_rows : list Swc.Row :=
  [ {| Swc.ind := 1; Swc.parent := -1 |}; {| Swc.ind := 2; Swc.parent := 1 |};
    {| Swc.ind := 3; Swc.parent := 2 |}; {| Swc.ind := 4; Swc.parent := 3 |};
    {| Swc.ind := 5; Swc.parent := 3 |}; {| Swc.ind := 6; Swc.parent := 5 |} ]%Z.

Definition swc_chain : list Swc.Row :=
  [ {| Swc.ind := 1; Swc.parent := -1 |}; {| Swc.ind := 2; Swc.parent := 1 |};
    {| Swc.ind := 3; Swc.parent := 2 |} ]%Z.


Definition swc_radiuses : list Z := [10; 20; 30; 40; 50]%Z.

(** The names of a sodium channel. *)
Definition sodium : Channel.names :=
  {| Channel.channel_name := Some "Na";
     Channel.channel_params := Some [("Na_gNa", 120%Z); ("Na_eNa", 50%Z)];
     Channel.channel_states := Some [("Na_m", 0%Z); ("Na_h", 1%Z)] |}.

End Fixture.

(** * Properties *)

Lemma bind_Ok {A B} (m : result A) (f : A → result B) (b : B) :
  m ≫= f = Ok b ↔ ∃ a, m = Ok a ∧ f a = Ok b.
Proof.
  destruct m as [a|e]; simpl.
  - split; [eauto | intros (a' & Ha & Hf); congruence].
  - split; [discriminate | intros (a' & Ha & _); discriminate].
Qed.

Lemma bind_Raise {A B} (m : result A) (f : A → result B) (e : exn) :
  m ≫= f = Raise e ↔ m = Raise e ∨ ∃ a, m = Ok a ∧ f a = Raise e.
Proof.
  destruct m as [a|e']; simpl.
  - split; [eauto | intros [H | (a' & Ha & Hf)]; congruence].
  - split; [intros [= ->]; by left | intros [H | (a' & Ha & _)]; congruence].
Qed.

Lemma mapM_cons_result {A B} (f : A → result B) (x : A) (l : list A) :
  mapM f (x :: l) = y ← f x; k ← mapM f l; Ok (y :: k).
Proof. reflexivity. Qed.

Module SwcFacts.
Import Swc.








End SwcFacts.

(** ** Lists laid out block after block *)

Section Blocks.
Context {A : Type}.

(** The entries of block [c] of a concatenation sit behind the entries of
    the blocks before it. *)
Lemma lookup_concat_block (L : list (list A)) (c k : nat) (l : list A) :
  L !! c = Some l → k < length l →
  concat L !! (sum_list (length <$> take c L) + k) = l !! k.
Proof.
  revert c. induction L as [|l0 L IH]; intros c Hc Hk; [done|].
  destruct c as [|c]; csimpl in *.
  - injection Hc as ->. by rewrite lookup_app_l.
  - rewrite lookup_app_r by lia.
    replace (length l0 + sum_list (length <$> take c L) + k - length l0)
      with (sum_list (length <$> take c L) + k) by lia.
    by apply IH.
Qed.

Lemma length_concat_sum (L : list (list A)) :
  length (concat L) = sum_list (length <$> L).
Proof. induction L as [|l L IH]; csimpl; [done|]. rewrite length_app. lia. Qed.

End Blocks.

Lemma sum_list_take_le (l : list nat) (c : nat) : sum_list (take c l) ≤ sum_list l.
Proof.
  revert c. induction l as [|x l IH]; intros [|c]; csimpl; try lia.
  specialize (IH c). lia.
Qed.

Lemma sum_list_take_lookup (l : list nat) (c x : nat) :
  l !! c = Some x → sum_list (take (S c) l) = sum_list (take c l) + x.
Proof.
  revert c. induction l as [|y l IH]; intros [|c] H; csimpl in *; try done.
  - injection H as ->. destruct l; csimpl; lia.
  - rewrite (IH c H). lia.
Qed.

(** Every position below the total lies in exactly one block. *)
Lemma sum_list_locate (l : list nat) (b : nat) :
  b < sum_list l →
  ∃ c x k, l !! c = Some x ∧ k < x ∧ b = sum_list (take c l) + k.
Proof.
  revert b. induction l as [|y l IH]; intros b Hb; csimpl in *; [lia|].
  destruct (decide (b < y)) as [Hlt|Hge].
  - exists 0, y, b. done.
  - destruct (IH (b - y)) as (c & x & k & Hc & Hk & Hb'); [lia|].
    exists (S c), x, k. csimpl. split; [done|]. split; [done|]. lia.
Qed.

Lemma take_fmap_length_imap {A B} (g : nat → A → B) (f : B → nat) (h : A → nat)
    (l : list A) (c : nat) :
  (∀ i x, f (g i x) = h x) →
  f <$> take c (imap g l) = h <$> take c l.
Proof.
  intros Hfg. revert g Hfg c. induction l as [|x l IH]; intros g Hfg [|c]; csimpl; try done.
  rewrite Hfg. f_equal. apply IH. intros i y. apply Hfg.
Qed.

(** ** Integer arrays *)

Module JnpFacts.
Import Jnp.

Lemma wrap_in_range (z : Z) : in_range z → wrap z = z.
Proof.
  unfold in_range, int_min, int_max, wrap. intros Hz.
  rewrite Z.mod_small by lia. lia.
Qed.

Lemma asarray_Ok (l a : list Z) : asarray l = Ok a ↔ Forall in_range l ∧ a = l.
Proof.
  unfold asarray. case_decide as Hr.
  - split; [intros [= <-]; done | intros [_ ->]; done].
  - split; [discriminate | intros [Hr' _]; done].
Qed.



Lemma cumsum_from_lookup (l : list nat) (acc : Z) (c x : nat) :
  (0 ≤ acc)%Z → (acc + Z.of_nat (sum_list l) ≤ int_max)%Z →
  l !! c = Some x →
  cumsum_from acc (Z.of_nat <$> l) !! c = Some (acc + Z.of_nat (sum_list (take (S c) l)))%Z.
Proof.
  revert acc c. induction l as [|y l IH]; intros acc c Hacc Hmax Hc; [done|].
  csimpl in Hmax. rewrite fmap_cons. cbn [cumsum_from].
  assert (Hw : wrap (acc + Z.of_nat y) = (acc + Z.of_nat y)%Z).
  { apply wrap_in_range. unfold in_range, int_min, int_max in *. lia. }
  rewrite Hw. destruct c as [|c].
  - injection Hc as ->. csimpl. do 2 f_equal. lia.
  - rewrite lookup_cons_ne_0 by done. rewrite lookup_cons_ne_0 in Hc by done.
    csimpl in *.
    rewrite (IH (acc + Z.of_nat y)%Z c); [| lia | lia | done].
    f_equal. lia.
Qed.

(** The cumulative offsets: entry [c] is the number of branches of the cells
    before cell [c]. *)
Lemma cumsum_offsets (nbs : list nat) (c : nat) :
  (Z.of_nat (sum_list nbs) ≤ int_max)%Z → c ≤ length nbs →
  cumsum (0%Z :: (Z.of_nat <$> nbs)) !! c = Some (Z.of_nat (sum_list (take c nbs))).
Proof.
  intros Hmax Hc. unfold cumsum. cbn [cumsum_from].
  rewrite wrap_in_range by (unfold in_range, int_min, int_max; lia).
  destruct c as [|c]; [done|]. rewrite lookup_cons_ne_0 by done. csimpl.
  destruct (lookup_lt_is_Some_2 nbs c) as [x Hx]; [lia|].
  change (0 + 0)%Z with 0%Z.
  rewrite (cumsum_from_lookup nbs 0 c x); [| lia | lia | done].
  f_equal.
Qed.

Lemma length_at_from1_add (p : list Z) (c : Z) : length (at_from1_add p c) = length p.
Proof. destruct p; csimpl; [done|]. by rewrite length_fmap. Qed.

Lemma at_from1_add_lookup (p : list Z) (c : Z) (k : nat) (x : Z) :
  p !! k = Some x →
  at_from1_add p c !! k = Some (if decide (k = 0) then x else wrap (x + c)).
Proof.
  destruct p as [|y t]; [done|]. destruct k as [|k]; csimpl; [done|].
  intros Hk. rewrite list_lookup_fmap. change (t !! k) with (lookup k t) in *.
  by rewrite Hk.
Qed.



End JnpFacts.

(** ** [Network.init_morph] *)

Section InitMorphFacts.
Context `{O : Objects} {C : Collaborators}.

(** What a returning [init_morph] has computed by itself. *)
Lemma init_morph_Ok (self self' : Network) :
  init_morph self = Ok self' →
  ∃ m,
    self' = set_morph self m ∧
    cells self ≠ [] ∧
    nbranches m = Jnp.BCList (Cell.nbranches <$> cells self) ∧
    cumsum_num_branches m
      = Jnp.cumsum (0%Z :: (Z.of_nat <$> (Cell.nbranches <$> cells self))) ∧
    max_num_kids m = 4%Z ∧
    comb_parents m
      = concat (imap (λ i p, Jnp.at_from1_add p (nth i (cumsum_num_branches m) 0%Z))
                  (Cell.parents <$> cells self)) ∧
    comp_index (nodes m) = seq 0 (nseg self * total_branches (cells self)) ∧
    branch_index (nodes m)
      = (λ i, i / nseg self) <$> seq 0 (nseg self * total_branches (cells self)) ∧
    cell_index (nodes m)
      = concat (imap (λ i b, replicate (nseg self * b) i) (Cell.nbranches <$> cells self)).
Proof.
  unfold init_morph. intros H.
  apply bind_Ok in H as (counts & Hcounts & H).
  apply JnpFacts.asarray_Ok in Hcounts as [_ ->].
  apply bind_Ok in H as (cp & Hcp & H).
  apply bind_Ok in H as (cpl & _ & H).
  apply bind_Ok in H as (cbl & _ & H).
  apply bind_Ok in H as (kids & _ & H).
  apply bind_Ok in H as (cik & _ & H).
  apply bind_Ok in H as (cum & _ & H).
  apply bind_Ok in H as (cck & _ & H).
  apply bind_Ok in H as (cckl & _ & H).
  apply bind_Ok in H as (nd & Hnd & H).
  injection H as <-. eexists. split; [reflexivity|]. cbn.
  unfold Jnp.concatenate in Hcp.
  destruct (cells self) as [|c0 cs] eqn:Hcells; [discriminate|].
  injection Hcp as <-.
  unfold DataFrame in Hnd. case_decide; [|discriminate]. injection Hnd as <-.
  repeat split; done.
Qed.

Lemma morph_set_morph (self : Network) (m : Morph) : morph (set_morph self m) = Some m.
Proof. reflexivity. Qed.

Lemma length_cell_index (nseg : nat) (nbs : list nat) :
  length (concat (imap (λ i b, replicate (nseg * b) i) nbs)) = nseg * sum_list nbs.
Proof.
  rewrite length_concat_sum.
  assert (Hgen : ∀ g : nat → nat,
    sum_list (length <$> imap (λ i b, replicate (nseg * b) (g i)) nbs) = nseg * sum_list nbs).
  { induction nbs as [|b nbs IH]; intros g; csimpl; [lia|].
    rewrite length_replicate, Nat.mul_add_distr_l. f_equal. apply (IH (g ∘ S)). }
  apply (Hgen id).
Qed.

(** The rows of the cell column: compartment [r] of the block of cell [c]. *)
Lemma cell_index_lookup (nseg : nat) (nbs : list nat) (c b r : nat) :
  nbs !! c = Some b → r < nseg * b →
  concat (imap (λ i b, replicate (nseg * b) i) nbs) !! (nseg * sum_list (take c nbs) + r)
  = Some c.
Proof.
  intros Hc Hr.
  set (L := imap (λ i b, replicate (nseg * b) i) nbs).
  assert (HL : L !! c = Some (replicate (nseg * b) c)).
  { unfold L. rewrite list_lookup_imap, Hc. done. }
  assert (Hsum : sum_list (length <$> take c L) = nseg * sum_list (take c nbs)).
  { unfold L.
    rewrite (take_fmap_length_imap _ length (λ b, nseg * b)).
    - clear. induction (take c nbs) as [|x l IH]; csimpl; lia.
    - intros i x. apply length_replicate. }
  rewrite <- Hsum, (lookup_concat_block L c r _ HL) by (rewrite length_replicate; lia).
  by apply lookup_replicate_2.
Qed.

Lemma branch_offset_block (cs : list Cell.t) (c : nat) (cell : Cell.t) :
  cs !! c = Some cell →
  branch_offset cs c + Cell.nbranches cell ≤ total_branches cs.
Proof.
  intros Hc. unfold branch_offset, total_branches.
  assert (Hnb : (Cell.nbranches <$> cs) !! c = Some (Cell.nbranches cell)).
  { by rewrite list_lookup_fmap, Hc. }
  rewrite <- (sum_list_take_lookup _ _ _ Hnb). apply sum_list_take_le.
Qed.

(** C5. After [init_morph] the nodes table numbers the compartments
    [0 .. nseg * sum(nbranches) - 1]; compartment [i] is in branch
    [i // nseg]; compartment [j] of branch [k] of cell [c] is row
    [(offset c + k) * nseg + j], where [offset c] counts the branches of the
    cells before [c], so that the compartments of a branch are contiguous,
    the branches of a cell follow each other in input order and the cells
    follow each other in input order; every row is such a compartment. *)
Theorem init_morph_nodes_layout (self self' : Network) :
  init_morph self = Ok self' →
  ∃ m, morph self' = Some m ∧
    let t := nodes m in
    let n := nseg self * total_branches (cells self) in
    comp_index t = seq 0 n ∧
    length (branch_index t) = n ∧
    length (cell_index t) = n ∧
    (∀ i, i < n → branch_index t !! i = Some (i / nseg self)) ∧
    (∀ c cell k j,
       cells self !! c = Some cell → k < Cell.nbranches cell → j < nseg self →
       let b := branch_offset (cells self) c + k in
       let i := b * nseg self + j in
       i < n ∧
       comp_index t !! i = Some i ∧
       branch_index t !! i = Some b ∧
       cell_index t !! i = Some c) ∧
    (∀ i, i < n →
       ∃ c cell k j,
         cells self !! c = Some cell ∧ k < Cell.nbranches cell ∧ j < nseg self ∧
         i = (branch_offset (cells self) c + k) * nseg self + j).
Proof.
  intros H. apply init_morph_Ok in H as (m & -> & _ & _ & _ & _ & _ & Hci & Hbi & Hce).
  exists m. split; [apply morph_set_morph|]. cbv zeta.
  rewrite Hci, Hbi, Hce. clear Hci Hbi Hce.
  set (n := nseg self * total_branches (cells self)).
  assert (Hbranch : ∀ i, i < n →
            ((λ i, i / nseg self) <$> seq 0 n) !! i = Some (i / nseg self)).
  { intros i Hi. by rewrite list_lookup_fmap, lookup_seq_lt. }
  split; [done|]. split; [by rewrite length_fmap, length_seq|].
  split; [apply length_cell_index|]. split; [done|]. split.
  - intros c cell k j Hc Hk Hj.
    pose proof (branch_offset_block _ _ _ Hc) as Hblock.
    set (b := branch_offset (cells self) c + k).
    assert (Hi : b * nseg self + j < n) by (unfold n, b; nia).
    split; [done|]. split; [by rewrite lookup_seq_lt|]. split.
    + rewrite Hbranch by done. f_equal.
      rewrite Nat.div_add_l, Nat.div_small by lia. lia.
    + replace (b * nseg self + j)
        with (nseg self * sum_list (take c (Cell.nbranches <$> cells self))
              + (k * nseg self + j))
        by (unfold b, branch_offset; lia).
      apply (cell_index_lookup _ _ _ (Cell.nbranches cell)).
      * by rewrite list_lookup_fmap, Hc.
      * nia.
  - intros i Hi.
    assert (Hnseg : nseg self ≠ 0) by (unfold n in Hi; lia).
    assert (Hb : i / nseg self < total_branches (cells self)).
    { apply Nat.Div0.div_lt_upper_bound. unfold n in Hi. lia. }
    destruct (sum_list_locate _ _ Hb) as (c & x & k & Hc & Hk & Hbk).
    rewrite list_lookup_fmap in Hc.
    destruct (cells self !! c) as [cell|] eqn:Hcell; [|discriminate].
    injection Hc as <-.
    exists c, cell, k, (i `mod` nseg self).
    split; [done|]. split; [done|]. split; [by apply Nat.mod_upper_bound|].
    unfold branch_offset. rewrite <- Hbk.
    rewrite (Nat.div_mod i (nseg self) Hnseg) at 1. lia.
Qed.

Lemma parents_offset_branch_offset (cs : list Cell.t) (c : nat) :
  Forall (λ cell, length (Cell.parents cell) = Cell.nbranches cell) cs →
  parents_offset cs c = branch_offset cs c.
Proof.
  intros Hlen. unfold parents_offset, branch_offset. f_equal. f_equal.
  by apply Forall_fmap_ext_1.
Qed.

(** C6. [init_morph] stores in entry [c] of [cumsum_num_branches] the number
    of branches of the cells before cell [c] (0 in entry 0), and
    [comb_parents], the concatenation of the cells' parent arrays, holds for
    branch [k >= 1] of cell [c] the entry
    [parents_c[k] + cumsum_num_branches[c]] and for branch 0 the entry
    [parents_c[0]] as it is; with one parent entry per branch, the entry of
    branch [k] of cell [c] sits at [cumsum_num_branches[c] + k].  The sums
    are taken within the 32-bit integers of the arrays. *)
Theorem init_morph_branch_offsets (self self' : Network) :
  init_morph self = Ok self' →
  (Z.of_nat (total_branches (cells self)) ≤ Jnp.int_max)%Z →
  ∃ m, morph self' = Some m ∧
    (∀ c, c ≤ length (cells self) →
       cumsum_num_branches m !! c = Some (Z.of_nat (branch_offset (cells self) c))) ∧
    (∀ c cell p,
       cells self !! c = Some cell → Cell.parents cell !! 0 = Some p →
       comb_parents m !! parents_offset (cells self) c = Some p) ∧
    (∀ c cell k p,
       cells self !! c = Some cell → 1 ≤ k → Cell.parents cell !! k = Some p →
       Jnp.in_range (p + Z.of_nat (branch_offset (cells self) c)) →
       comb_parents m !! (parents_offset (cells self) c + k)
       = Some (p + Z.of_nat (branch_offset (cells self) c))%Z) ∧
    (Forall (λ cell, length (Cell.parents cell) = Cell.nbranches cell) (cells self) →
     ∀ c, parents_offset (cells self) c = branch_offset (cells self) c).
Proof.
  intros H Hmax.
  apply init_morph_Ok in H as (m & -> & _ & _ & Hcs & _ & Hcp & _).
  exists m. split; [apply morph_set_morph|].
  assert (Hcum : ∀ c, c ≤ length (cells self) →
            cumsum_num_branches m !! c = Some (Z.of_nat (branch_offset (cells self) c))).
  { intros c Hc. rewrite Hcs. apply JnpFacts.cumsum_offsets; [done|].
    by rewrite length_fmap. }
  assert (Hentry : ∀ c cell k p,
            cells self !! c = Some cell → Cell.parents cell !! k = Some p →
            comb_parents m !! (parents_offset (cells self) c + k)
            = Some (if decide (k = 0) then p
                    else Jnp.wrap (p + Z.of_nat (branch_offset (cells self) c)))).
  { intros c cell k p Hc Hk. rewrite Hcp.
    set (L := imap (λ i p, Jnp.at_from1_add p (nth i (cumsum_num_branches m) 0%Z))
                (Cell.parents <$> cells self)).
    assert (Hnth : nth c (cumsum_num_branches m) 0%Z
                   = Z.of_nat (branch_offset (cells self) c)).
    { apply nth_lookup_Some. apply Hcum. apply lookup_lt_Some in Hc. lia. }
    assert (HL : L !! c = Some (Jnp.at_from1_add (Cell.parents cell)
                                  (Z.of_nat (branch_offset (cells self) c)))).
    { unfold L. rewrite list_lookup_imap, list_lookup_fmap, Hc. csimpl.
      by rewrite Hnth. }
    assert (Hsum : sum_list (length <$> take c L) = parents_offset (cells self) c).
    { unfold L, parents_offset.
      rewrite (take_fmap_length_imap _ length length)
        by (intros; apply JnpFacts.length_at_from1_add).
      by rewrite <- !fmap_take, <- list_fmap_compose. }
    replace (parents_offset (cells self) c + k)
      with (sum_list (length <$> take c L) + k) by (by rewrite Hsum).
    rewrite (lookup_concat_block L c k _ HL).
    - by apply JnpFacts.at_from1_add_lookup.
    - rewrite JnpFacts.length_at_from1_add. by apply lookup_lt_Some in Hk. }
  split; [done|]. split; [|split].
  - intros c cell p Hc Hp. rewrite <- (Nat.add_0_r (parents_offset _ _)).
    by rewrite (Hentry c cell 0 p).
  - intros c cell k p Hc Hk Hp Hr. rewrite (Hentry c cell k p) by done.
    rewrite decide_False by lia. by rewrite JnpFacts.wrap_in_range.
  - intros Hlen c. by apply parents_offset_branch_offset.
Qed.





End InitMorphFacts.

(** ** [Network.step] *)

Section StepFacts.
Context `{O : Objects} {C : Collaborators}.

Lemma reshape_Ok {A} (a : list A) (d : Jnp.branch_count) (m : nat) (r : list (list A)) :
  Jnp.reshape a d m = Ok r →
  ∃ n, d = Jnp.BCInt n ∧ length a = n * m ∧ r = Jnp.rows n m a.
Proof.
  unfold Jnp.reshape. destruct d as [n|ns]; [|discriminate].
  case_decide as Hlen; [|discriminate]. intros [= <-]. eauto.
Qed.

(** The arguments of the solve are made from the voltages, the channel terms
    and the stimulus. *)
Lemma step_solve_args_Ok (self : Network) (nb : Jnp.branch_count) (ns : nat)
    (l : Locals) (dt : V) (kw : SolveArgs) :
  step_solve_args self nb ns l dt = Ok kw →
  ∃ n, nb = Jnp.BCInt n ∧
    length (voltages l) = n * ns ∧
    kw_voltages kw = Jnp.rows n ns (voltages l) ∧
    kw_voltage_terms kw = Jnp.rows n ns (v_terms l) ∧
    kw_constant_terms kw
      = Jnp.add2 vadd (Jnp.rows n ns (const_terms l)) (Jnp.rows n ns (i_ext l)).
Proof.
  unfold step_solve_args. intros H.
  apply bind_Ok in H as (v2 & Hv & H). apply bind_Ok in H as (t2 & Ht & H).
  apply bind_Ok in H as (c2 & Hc & H). apply bind_Ok in H as (e2 & He & H).
  apply bind_Ok in H as (nb' & _ & H). injection H as <-. cbn.
  apply reshape_Ok in Hv as (n & -> & Hlen & ->).
  apply reshape_Ok in Ht as (n1 & [= <-] & _ & ->).
  apply reshape_Ok in Hc as (n2 & [= <-] & _ & ->).
  apply reshape_Ok in He as (n3 & [= <-] & _ & ->).
  exists n. done.
Qed.

Lemma step_body_Ok (self : Network) (nb : Jnp.branch_count) (ns : nat)
    (u : State) (dt : V) (i_inds : list Z) (i_current : list V) (st : State) :
  step_body self nb ns u dt i_inds i_current = Ok st →
  ∃ l kw new_voltages final_state,
    step_locals self u dt i_inds i_current = Ok l ∧
    step_solve_args self nb ns l dt = Ok kw ∧
    step_voltages kw = Ok new_voltages ∧
    new_channel_states l !! 0 = Some final_state ∧
    st = <["voltages" := Jnp.flatten new_voltages]> final_state.
Proof.
  unfold step_body. intros H.
  apply bind_Ok in H as (l & Hl & H). apply bind_Ok in H as (kw & Hkw & H).
  apply bind_Ok in H as (nv & Hnv & H). apply bind_Ok in H as (fs & Hfs & H).
  injection H as <-. exists l, kw, nv, fs.
  unfold py_index in Hfs. destruct (new_channel_states l !! 0); [|discriminate].
  injection Hfs as ->. done.
Qed.

(** The object [step] works on and leaves behind: [self], or what
    [init_branch_conds] made of it when [branch_conds_fwd] was [None]. *)
Lemma step_Ok (self : Network) (u : State) (dt : V) (i_inds : list Z)
    (i_current : list V) (st : State) :
  (step self u dt i_inds i_current).2 = Ok st →
  ∃ m self',
    morph self = Some m ∧
    (step self u dt i_inds i_current).1 = self' ∧
    match branch_conds_fwd self with
    | None => init_branch_conds self = Ok self'
    | Some _ => self' = self
    end ∧
    step_body self' (nbranches m) (nseg self) u dt i_inds i_current = Ok st.
Proof.
  unfold step, read_morph. destruct (morph self) as [m|]; [|discriminate].
  destruct (branch_conds_fwd self) as [c|].
  - cbn. intros H. by exists m, self.
  - destruct (init_branch_conds self) as [self'|e]; [|discriminate].
    cbn. intros H. by exists m, self'.
Qed.

(** With the list of branch counts that [init_morph] stores in [nbranches],
    the reshape of the voltages raises: [step] returns no state. *)
Lemma step_needs_integer_nbranches (self : Network) (u : State) (dt : V)
    (i_inds : list Z) (i_current : list V) (m : Morph) (ns : list nat) :
  morph self = Some m → nbranches m = Jnp.BCList ns →
  ∀ st, (step self u dt i_inds i_current).2 ≠ Ok st.
Proof.
  intros Hm Hns st H.
  apply step_Ok in H as (m' & self' & Hm' & _ & _ & H).
  apply step_body_Ok in H as (l & kw & nv & fs & _ & Hkw & _).
  apply step_solve_args_Ok in Hkw as (n & Hn & _). congruence.
Qed.



End StepFacts.

(** ** Determinism of [step] *)

Section Determinism.
Context `{O : Objects}.


Lemma step_locals_ext (C1 C2 : Collaborators) (self : Network) (u : State) (dt : V)
    (i_inds : list Z) (i_current : list V) :
  same_calls C1 C2 →
  step_locals (C := C1) self u dt i_inds i_current
  = step_locals (C := C2) self u dt i_inds i_current.
Proof.
  intros (_ & Hsc & Hext & Hsyn & _). unfold step_locals.
  destruct (py_getitem u "voltages") as [v|]; [|done]. cbn [mbind result_bind].
  destruct (py_index (branches self) 0) as [b|]; [|done]. cbn [mbind result_bind].
  destruct (py_index (compartments b) 0) as [c|]; [|done]. cbn [mbind result_bind].
  rewrite Hsc.
  destruct (step_channels u dt (channels c) (params self)) as [[ncs [vt ct]]|]; [|done].
  cbn [mbind result_bind].
  destruct (py_getitem (params self) "radius") as [r|]; [|done]. cbn [mbind result_bind].
  destruct (py_getitem (params self) "length") as [len|]; [|done]. cbn [mbind result_bind].
  rewrite Hext. destruct (get_external_input v i_inds i_current r len) as [ie|]; [|done].
  cbn [mbind result_bind].
  destruct (read_morph self cumsum_num_branches) as [cs|]; [|done]. cbn [mbind result_bind].
  by rewrite Hsyn.
Qed.

Lemma step_ext (C1 C2 : Collaborators) (self : Network) (u : State) (dt : V)
    (i_inds : list Z) (i_current : list V) :
  same_calls C1 C2 →
  step (C := C1) self u dt i_inds i_current = step (C := C2) self u dt i_inds i_current.
Proof.
  intros Hsame. pose proof Hsame as (Hinit & _ & _ & _ & Hsolve). unfold step.
  destruct (read_morph self nbranches) as [nb|]; [|done].
  rewrite Hinit.
  destruct (match branch_conds_fwd self with
            | Some _ => Ok self
            | None => init_branch_conds (Collaborators := C2) self
            end) as [self'|]; [|done].
  f_equal. unfold step_body. rewrite (step_locals_ext C1 C2) by done.
  destruct (step_locals self' u dt i_inds i_current) as [l|]; [|done].
  cbn [mbind result_bind].
  destruct (step_solve_args self' nb (nseg self) l dt) as [kw|]; [|done].
  cbn [mbind result_bind]. by rewrite Hsolve.
Qed.


(** Collaborators that are functions allow the one execution that [step]
    computes. *)
Lemma step_may_yield_behaviours_of (C : Collaborators) (self : Network) (u : State)
    (dt : V) (i_inds : list Z) (i_current : list V) (out : Network * result State) :
  step_may_yield (behaviours_of C) self u dt i_inds i_current out ↔
  out = step (C := C) self u dt i_inds i_current.
Proof.
  split.
  - intros (C' & (R1 & R2 & R3 & R4 & R5) & <-). apply step_ext.
    repeat split; intros; [apply R1 | apply R2 | apply R3 | apply R4 | apply R5].
  - intros ->. exists C. split; [|done]. by repeat split.
Qed.


End Determinism.

(** ** [Channel.__init__] *)

Section ChannelFacts.
Context `{O : Objects} {U P X Y : Type}.

(** The batched update gives every compartment the update of its own state,
    voltage and parameters, and nothing else enters it. *)
Lemma vmaped_update_states_pointwise (k : Channel.Kinetics (U := U) (P := P) (X := X) (Y := Y))
    (u : list U) (dt : V) (voltages : list V) (params : list P) (new : list X) :
  Channel.vmaped_update_states (Channel.__init__ k) u dt voltages params = Ok new →
  length new = length voltages ∧
  ∀ i ui vi pi,
    u !! i = Some ui → voltages !! i = Some vi → params !! i = Some pi →
    new !! i = Some (Channel.update_states k ui dt vi pi).
Proof.
  cbn. case_decide as Hlen; [|discriminate]. intros [= <-]. destruct Hlen as [Hu Hp].
  split.
  - rewrite length_zip_with, length_zip. lia.
  - intros i ui vi pi Hui Hvi Hpi.
    rewrite lookup_zip_with, lookup_zip_with, Hui, Hvi, Hpi. done.
Qed.

Lemma vmapped_compute_current_pointwise
    (k : Channel.Kinetics (U := U) (P := P) (X := X) (Y := Y))
    (u : U) (voltages : list V) (params : P) (i : nat) (vi : V) :
  voltages !! i = Some vi →
  Channel.vmapped_compute_current (Channel.__init__ k) u voltages params !! i
  = Some (Channel.compute_current k u vi params).
Proof. intros Hvi. cbn. by rewrite list_lookup_fmap, Hvi. Qed.

End ChannelFacts.

(** ** [Network.__getattr__] *)

Section GetattrFacts.
Context `{O : Objects}.

(** C9. A lookup that falls through to [__getattr__] returns only for the
    name ["cell"], and then a [CellView] of the object over its nodes table;
    for every other name it raises [AssertionError], and it never raises
    [AttributeError]. *)
Theorem getattr_only_cell (self : Network) (key : string) :
  (key ≠ "cell" → __getattr__ self key = Raise AssertionError) ∧
  (∀ cell_view, __getattr__ self key = Ok cell_view →
     key = "cell" ∧
     ∃ m, morph self = Some m ∧ cell_view = {| pointer := self; view := nodes m |}) ∧
  __getattr__ self key ≠ Raise AttributeError.
Proof.
  unfold __getattr__, read_morph. split; [|split].
  - intros Hkey. by rewrite decide_False.
  - intros cv. case_decide as Hkey; [|discriminate].
    destruct (morph self) as [m|]; [|discriminate].
    cbn. intros [= <-]. eauto.
  - case_decide; [|discriminate]. by destruct (morph self).
Qed.

End GetattrFacts.

(** ** [_build_parents] *)

Section BuildParents.
Import Swc SwcFacts.




End BuildParents.

(** ** The methods on concrete networks *)

Section Runs.
Import Fixture.
#[local] Existing Instance Fixture.objects.

(** C1. On a network of one compartment the channels give the voltage term
    [2] and the constant term [3], the synapse step gives [5] and [7], the
    stimulus gives [1]; the solver is handed the voltage term [2] and the
    constant term [4]: the synaptic terms are not in them. *)
Theorem step_solve_args_lack_synapse_terms :
  ∃ l kw st,
    stepped_locals one_compartment = Ok l ∧
    step_solve_args one_compartment (nbranches one_compartment_morph)
      (nseg one_compartment) l 0%Z = Ok kw ∧
    (stepped one_compartment).2 = Ok st ∧
    v_terms l = [2%Z] ∧ syn_voltage_terms l = [5%Z] ∧
    kw_voltage_terms kw = [[2%Z]] ∧
    const_terms l = [3%Z] ∧ syn_constant_terms l = [7%Z] ∧ i_ext l = [1%Z] ∧
    kw_constant_terms kw = [[4%Z]] ∧
    ¬ synapse_terms_reach_solver l kw.
Proof.
  eexists _, _, _. split; [vm_compute; reflexivity|].
  split; [vm_compute; reflexivity|].
  split; [vm_compute; reflexivity|].
  repeat (split; [reflexivity|]).
  intros [Hv _]. vm_compute in Hv. discriminate.
Qed.

(** C2. On the same network the synapse step advances the state ["syn_s"]
    from [4] to [9]; the state [step] returns still holds [4]. *)
Theorem step_state_lacks_synapse_states :
  ∃ l st,
    stepped_locals one_compartment = Ok l ∧
    (stepped one_compartment).2 = Ok st ∧
    u0 !! "syn_s" = Some [4%Z] ∧
    new_syn_states l !! "syn_s" = Some [9%Z] ∧
    st !! "syn_s" = Some [4%Z] ∧
    ¬ holds_synapse_states (new_syn_states l) st.
Proof.
  eexists _, _. split; [vm_compute; reflexivity|].
  split; [vm_compute; reflexivity|].
  split; [reflexivity|]. split; [reflexivity|]. split; [reflexivity|].
  intros Hall. specialize (Hall "syn_s" [9%Z] eq_refl). vm_compute in Hall. discriminate.
Qed.





Lemma init_morph_nodes_layout_witness :
  ∃ m, morph (indexed two_cells) = Some m ∧
    comp_index (nodes m) = seq 0 10 ∧
    branch_index (nodes m) !! 7 = Some 3 ∧
    cell_index (nodes m) !! 7 = Some 1.
Proof.
  destruct (init_morph_nodes_layout (C := collaborators) two_cells (indexed two_cells))
    as (m & Hm & Hcomp & _ & _ & _ & Hrow & _).
  - vm_compute. reflexivity.
  - exists m. split; [done|]. split; [exact Hcomp|].
    destruct (Hrow 1 (cell [(-1)%Z; 0%Z]) 0 1) as (_ & _ & Hb & Hc);
      [reflexivity | cbn; lia | cbn; lia |].
    split; [exact Hb | exact Hc].
Defined.

Lemma init_morph_branch_offsets_witness :
  ∃ m, morph (indexed two_cells) = Some m ∧
    cumsum_num_branches m !! 1 = Some 3%Z ∧
    comb_parents m !! 3 = Some (-1)%Z ∧
    comb_parents m !! 4 = Some 3%Z.
Proof.
  destruct (init_morph_branch_offsets (C := collaborators) two_cells (indexed two_cells))
    as (m & Hm & Hcum & Hroot & Hkid & _).
  - vm_compute. reflexivity.
  - vm_compute. discriminate.
  - exists m. split; [done|]. split; [apply (Hcum 1); cbn; lia|]. split.
    + apply (Hroot 1 (cell [(-1)%Z; 0%Z]) (-1)%Z); reflexivity.
    + apply (Hkid 1 (cell [(-1)%Z; 0%Z]) 1 0%Z); [reflexivity | lia | reflexivity |].
      vm_compute. split; discriminate.
Defined.



Lemma getattr_only_cell_witness :
  __getattr__ (indexed two_cells) "nodes" = Raise AssertionError ∧
  ∃ m, morph (indexed two_cells) = Some m ∧
       __getattr__ (indexed two_cells) "cell"
       = Ok {| pointer := indexed two_cells; view := nodes m |}.
Proof.
  split.
  - by apply getattr_only_cell.
  - destruct (proj1 (proj2 (getattr_only_cell (indexed two_cells) "cell"))
                (match __getattr__ (indexed two_cells) "cell" with
                 | Ok cv => cv
                 | Raise _ => {| pointer := two_cells;
                                 view := {| comp_index := []; branch_index := [];
                                            cell_index := [] |} |}
                 end)) as (_ & m & Hm & Hcv).
    + vm_compute. reflexivity.
    + exists m. split; [done|]. rewrite <- Hcv. vm_compute. reflexivity.
Defined.


End Runs.

(** * Further properties *)

(** ** Calls in sequence *)

Lemma mapM_Ok_lookup {A B} (f : A → result B) (l : list A) (k : list B) :
  mapM f l = Ok k →
  length k = length l ∧
  ∀ i x, l !! i = Some x → ∃ y, f x = Ok y ∧ k !! i = Some y.
Proof.
  revert k. induction l as [|a l IH]; intros k.
  - intros [= <-]. split; [done | intros i x H; discriminate].
  - rewrite mapM_cons_result. intros H. apply bind_Ok in H as (y & Hy & H).
    apply bind_Ok in H as (k' & Hk' & H). injection H as <-.
    destruct (IH _ Hk') as [Hlen Hall]. split; [csimpl; lia|].
    intros [|i] x Hx; csimpl in *; [injection Hx as <-; eauto | eauto].
Qed.



(** ** [_split_into_branches] *)

Section SplitFacts.
Import Swc.

Lemma own_nodes_snoc (all_branches : list (list Z)) (b : list Z) :
  all_branches ≠ [] →
  own_nodes (all_branches ++ [b]) = own_nodes all_branches ++ drop 1 b.
Proof.
  destruct all_branches as [|a t]; [done|]. intros _. csimpl.
  rewrite fmap_app, concat_app. csimpl. by rewrite app_nil_r, app_assoc.
Qed.

Lemma split_second_loop_spec (Q : Z → Z → Prop) (content : list Row)
    (branch_starts : list Z) (all_branches : list (list Z)) (current_branch : list Z)
    (all_branches' : list (list Z)) (current_branch' : list Z) :
  split_second_loop content branch_starts all_branches current_branch
  = (all_branches', current_branch') →
  (∀ c, c ∈ content → Q (parent c) (ind c)) →
  Forall (later_branch Q branch_starts) (drop 1 all_branches) →
  (all_branches ≠ [] → later_branch Q branch_starts current_branch) →
  own_nodes (all_branches' ++ [current_branch'])
  = own_nodes (all_branches ++ [current_branch]) ++ (ind <$> content) ∧
  length all_branches'
  = length all_branches + length (filter (λ c, parent c ∈ branch_starts) content) ∧
  Forall (later_branch Q branch_starts) (drop 1 all_branches') ∧
  (all_branches' ≠ [] → later_branch Q branch_starts current_branch').
Proof.
  revert all_branches current_branch.
  induction content as [|c content IH]; intros all cur Hloop HQ Hall Hcur.
  - injection Hloop as <- <-. csimpl. rewrite app_nil_r. split; [done|].
    split; [lia|]. done.
  - cbn [split_second_loop] in Hloop.
    assert (HQ' : ∀ c', c' ∈ content → Q (parent c') (ind c'))
      by (intros c' Hc'; apply HQ; by right).
    destruct (decide (parent c ∈ branch_starts)) as [Hin|Hnotin].
    + apply IH in Hloop as (Hown & Hlen & Hall' & Hcur'); [|done| |].
      * split; [|split; [|done]].
        -- rewrite Hown, own_nodes_snoc by (by destruct all). csimpl.
           by rewrite <- app_assoc.
        -- rewrite Hlen, length_app, filter_cons_True by done. csimpl. lia.
      * destruct all as [|a t]; csimpl; [constructor|].
        apply Forall_app. split; [done|]. constructor; [|constructor].
        by apply Hcur.
      * intros _. exists (parent c), (ind c), []. split; [done|]. split; [done|].
        apply HQ. by left.
    + apply IH in Hloop as (Hown & Hlen & Hall' & Hcur'); [|done|done|].
      * split; [|split; [|done]].
        -- rewrite Hown. csimpl. destruct all as [|a t]; csimpl.
           ++ by rewrite !app_nil_r, <- app_assoc.
           ++ destruct Hcur as (p & i & rest & -> & _); [done|].
              rewrite !fmap_app, !concat_app. csimpl.
              rewrite !app_nil_r. repeat (rewrite <- app_assoc; csimpl). done.
        -- by rewrite Hlen, filter_cons_False.
      * intros Hne. destruct (Hcur Hne) as (p & i & rest & -> & Hp & Hq).
        exists p, i, (rest ++ [ind c]). done.
Qed.

Lemma split_into_branches_loop (content : list Row) :
  ∃ all_branches current_branch,
    split_second_loop content (split_branch_starts content) [] []
    = (all_branches, current_branch) ∧
    _split_into_branches content = all_branches ++ [current_branch].
Proof.
  unfold _split_into_branches.
  destruct (split_second_loop content (split_branch_starts content) [] [])
    as [all cur]. by exists all, cur.
Qed.

(** X1. [_split_into_branches] never returns an empty list: it returns one
    branch, and one more for every row whose parent is in [branch_inds[1:]]. *)
Theorem split_into_branches_length (content : list Row) :
  length (_split_into_branches content)
  = S (length (filter (λ c, parent c ∈ split_branch_starts content) content)).
Proof.
  destruct (split_into_branches_loop content) as (all & cur & Hloop & ->).
  apply (split_second_loop_spec (λ _ _, True)) in Hloop as (_ & Hlen & _);
    [| done | constructor | done].
  rewrite length_app, Hlen. csimpl. lia.
Qed.

(** X2. The branches of [_split_into_branches] list every node once and in
    the order of the rows: the first branch, followed by the other branches
    without their leading parent index, is the column of node indices. *)
Theorem split_into_branches_nodes (content : list Row) :
  own_nodes (_split_into_branches content) = ind <$> content.
Proof.
  destruct (split_into_branches_loop content) as (all & cur & Hloop & ->).
  apply (split_second_loop_spec (λ _ _, True)) in Hloop as (Hown & _);
    [| done | constructor | done].
  by rewrite Hown.
Qed.

(** X3. Every branch of [_split_into_branches] behind the first has at
    least two entries: the index of a parent node in [branch_inds[1:]], then
    the index of a node whose row names that parent. *)
Theorem split_into_branches_later_branches (content : list Row) (j : nat) (b : list Z) :
  _split_into_branches content !! S j = Some b →
  ∃ p i rest,
    b = p :: i :: rest ∧
    p ∈ split_branch_starts content ∧
    {| ind := i; parent := p |} ∈ content.
Proof.
  destruct (split_into_branches_loop content) as (all & cur & Hloop & ->).
  apply (split_second_loop_spec (λ p i, {| ind := i; parent := p |} ∈ content))
    in Hloop as (_ & _ & Hall & Hcur); [| | constructor | done].
  - intros Hb. destruct all as [|a t]; [done|]. csimpl in *.
    apply lookup_app_Some in Hb as [Hb | [_ Hb]].
    + by apply (Forall_lookup_1 _ _ _ _ Hall Hb).
    + apply list_lookup_singleton_Some in Hb as [_ <-]. by apply Hcur.
  - intros [i p] Hc. done.
Qed.

Lemma split_first_loop_chain (content : list Row) (prev : Z) (n : nat) (bi : list Z) :
  (∀ c, content !! 0 = Some c → parent c = prev) →
  (∀ i c c', content !! i = Some c → content !! S i = Some c' → parent c' = ind c) →
  split_first_loop content (Some prev) n bi = (n, bi).
Proof.
  revert prev. induction content as [|c content IH]; intros prev Hfirst Hchain; [done|].
  cbn [split_first_loop]. rewrite decide_False.
  - apply IH.
    + intros c' Hc'. by apply (Hchain 0 c c').
    + intros i c1 c2 H1 H2. by apply (Hchain (S i) c1 c2).
  - intros Hne. apply Hne. f_equal. by apply Hfirst.
Qed.

Lemma split_second_loop_no_starts (content : list Row) (all_branches : list (list Z))
    (current_branch : list Z) :
  split_second_loop content [] all_branches current_branch
  = (all_branches, current_branch ++ (ind <$> content)).
Proof.
  revert current_branch. induction content as [|c content IH]; intros cur; csimpl.
  - by rewrite app_nil_r.
  - by rewrite IH, <- app_assoc.
Qed.

(** X4. A table without branch points, in which every row has the row
    before it as its parent, comes back as one branch with all the nodes. *)
Theorem split_into_branches_chain (content : list Row) :
  (∀ i c c', content !! i = Some c → content !! S i = Some c' → parent c' = ind c) →
  _split_into_branches content = [ind <$> content].
Proof.
  intros Hchain. unfold _split_into_branches, split_branch_starts.
  destruct content as [|c content]; [done|].
  cbn [split_first_loop]. rewrite decide_True by done.
  rewrite (split_first_loop_chain content (ind c)).
  - cbn [snd drop app]. by rewrite split_second_loop_no_starts.
  - intros c' Hc'. by apply (Hchain 0 c c').
  - intros i c1 c2 H1 H2. by apply (Hchain (S i) c1 c2).
Qed.

End SplitFacts.

(** ** [_remove_single_branch_artifacts] *)

Section RemoveArtifactsFacts.
Import Swc SwcFacts.

Lemma count_of_above (acc : list (Z * nat)) (v : Z) :
  Forall (λ a, (v < a.1)%Z) acc → count_of acc v = 0.
Proof.
  induction 1 as [|[w n] acc Hw _ IH]; [done|]. csimpl in *.
  rewrite decide_False by lia. done.
Qed.

Lemma unique_insert_table (v : Z) (acc : list (Z * nat)) :
  unique_table acc → unique_table (unique_insert v acc).
Proof.
  intros [Hs Hc]. induction acc as [|[w n] acc IH]; csimpl.
  - split; repeat constructor.
  - apply StronglySorted_inv in Hs as [Hs Hw]. apply Forall_cons in Hc as [Hn Hc].
    destruct (decide (v = w)) as [->|Hne].
    + split; [by constructor | constructor; [csimpl; lia | done]].
    + destruct (decide (v < w)%Z) as [Hlt|Hge].
      * split.
        -- constructor; [by constructor|]. constructor; [done|].
           eapply Forall_impl; [exact Hw|]. intros [x m] Hx. csimpl in *. lia.
        -- constructor; [done|]. by constructor.
      * destruct (IH Hs Hc) as [Hs' Hc']. split; [|by constructor].
        constructor; [done|].
        clear - Hw Hge Hne. induction acc as [|[x m] acc IH]; csimpl.
        -- constructor; [csimpl; lia | constructor].
        -- apply Forall_cons in Hw as [Hx Hw]. csimpl in Hx.
           destruct (decide (v = x)); [by constructor|].
           destruct (decide (v < x)%Z).
           ++ constructor; [csimpl; lia|]. by constructor.
           ++ constructor; [done|]. by apply IH.
Qed.

Lemma count_of_unique_insert (v w : Z) (acc : list (Z * nat)) :
  unique_table acc →
  count_of (unique_insert v acc) w
  = if decide (w = v) then S (count_of acc v) else count_of acc w.
Proof.
  intros [Hs _]. induction acc as [|[x n] acc IH]; csimpl.
  - repeat case_decide; congruence.
  - apply StronglySorted_inv in Hs as [Hs Hx]. specialize (IH Hs).
    destruct (decide (v = x)) as [->|Hne]; csimpl.
    + repeat case_decide; congruence.
    + destruct (decide (v < x)%Z) as [Hlt|Hge]; csimpl.
      * rewrite (count_of_above acc v)
          by (eapply Forall_impl; [exact Hx|]; intros [y m] Hy; csimpl in *; lia).
        repeat case_decide; congruence.
      * rewrite IH. repeat case_decide; congruence.
Qed.

Lemma np_unique_counts_table (xs : list Z) : unique_table (np_unique_counts xs).
Proof.
  induction xs as [|x xs IH]; csimpl.
  - split; constructor.
  - by apply unique_insert_table.
Qed.

Lemma count_of_np_unique_counts (xs : list Z) (v : Z) :
  count_of (np_unique_counts xs) v = occurrences v xs.
Proof.
  unfold occurrences. induction xs as [|x xs IH]; csimpl; [done|].
  rewrite count_of_unique_insert by apply np_unique_counts_table.
  destruct (decide (v = x)) as [->|Hne].
  - rewrite filter_cons_True by done. csimpl. by rewrite IH.
  - rewrite filter_cons_False by congruence. done.
Qed.

Lemma unique_table_elem_of (acc : list (Z * nat)) (v : Z) (n : nat) :
  unique_table acc → ((v, n) ∈ acc ↔ count_of acc v = n ∧ 1 ≤ n).
Proof.
  intros [Hs Hc]. induction acc as [|[w m] acc IH]; csimpl.
  - split; [intros H; inversion H | lia].
  - apply StronglySorted_inv in Hs as [Hs Hw]. apply Forall_cons in Hc as [Hm Hc].
    csimpl in Hm. rewrite elem_of_cons. destruct (decide (w = v)) as [->|Hne].
    + split.
      * intros [[= <-] | Hin]; [done|].
        rewrite Forall_forall in Hw. specialize (Hw _ Hin). csimpl in Hw. lia.
      * intros [<- _]. by left.
    + rewrite IH by done. split; [intros [[= ? ?] | H]; [done | done] | by right].
Qed.

(** The values [_remove_single_branch_artifacts] fuses: those that occur
    exactly once in [first_val[1:]]. *)
Lemma one_vals_spec (first_val : list Z) (v : Z) :
  v ∈ one_vals first_val ↔ occurrences v (drop 1 first_val) = 1.
Proof.
  unfold one_vals. rewrite list_elem_of_fmap. split.
  - intros ([w n] & -> & Hin). apply list_elem_of_filter in Hin as [Hn Hin].
    csimpl in *. subst n.
    apply unique_table_elem_of in Hin as [Hc _]; [|apply np_unique_counts_table].
    by rewrite count_of_np_unique_counts in Hc.
  - intros Hocc. exists (v, 1). split; [done|]. apply list_elem_of_filter. split; [done|].
    apply unique_table_elem_of; [apply np_unique_counts_table|].
    by rewrite count_of_np_unique_counts.
Qed.



Lemma mapM_py_first_Ok (bs : list (list Z)) (first_val : list Z) :
  mapM py_first bs = Ok first_val ↔ Forall2 (λ b x, head b = Some x) bs first_val.
Proof.
  revert first_val. induction bs as [|b bs IH]; intros fv.
  - split; [intros [= <-]; constructor | by intros ->%Forall2_nil_inv_l].
  - rewrite mapM_cons_result. split.
    + intros H. apply bind_Ok in H as (x & Hx & H). apply bind_Ok in H as (k & Hk & H).
      injection H as <-. constructor; [|by apply IH].
      unfold py_first in Hx. destruct (head b); [|done]. by injection Hx as ->.
    + intros H. apply Forall2_cons_inv_l in H as (x & k & Hx & Hk & ->).
      apply IH in Hk.
      assert (py_first b = Ok x) as -> by (unfold py_first; by rewrite Hx).
      cbn [mbind result_bind]. by rewrite Hk.
Qed.










(** X7. When no value occurs exactly once among the first entries of the
    branches behind the first (every branch point has at least two
    children), [_remove_single_branch_artifacts] returns the branches as they
    are. *)
Theorem remove_single_branch_artifacts_identity (branches : list (list Z))
    (first_val : list Z) :
  Forall2 (λ b x, head b = Some x) branches first_val →
  (∀ v, occurrences v (drop 1 first_val) ≠ 1) →
  _remove_single_branch_artifacts branches = Ok branches.
Proof.
  intros Hfv Hnone. unfold _remove_single_branch_artifacts.
  apply mapM_py_first_Ok in Hfv as ->. cbn [mbind result_bind].
  destruct (one_vals first_val) as [|v vals] eqn:Hvals; [done|].
  exfalso. apply (Hnone v). apply one_vals_spec. rewrite Hvals. by left.
Qed.


End RemoveArtifactsFacts.

(** ** [_extract_endpoint_radiuses] *)

Section EndpointFacts.
Import Swc SwcFacts.
Context {A : Type}.

Lemma np_index_Ok (a : list A) (i : Z) (x : A) :
  np_index a i = Ok x ↔
  (0 ≤ i < Z.of_nat (length a))%Z ∧ a !! Z.to_nat i = Some x ∨
  (- Z.of_nat (length a) ≤ i < 0)%Z ∧ a !! Z.to_nat (i + Z.of_nat (length a)) = Some x.
Proof.
  unfold np_index, py_index. destruct (decide (i < 0)%Z) as [Hneg|Hpos].
  - case_decide as Hr.
    + destruct (a !! Z.to_nat (i + Z.of_nat (length a))) as [y|] eqn:Hy.
      * split; [intros [= <-]; right; split; [lia | done]|].
        intros [[? _] | [_ [= <-]]]; [lia | done].
      * split; [done | intros [[? _] | [_ ?]]; [lia | done]].
    + split; [done | intros [[? _] | [? _]]; lia].
  - case_decide as Hr.
    + destruct (a !! Z.to_nat i) as [y|] eqn:Hy.
      * split; [intros [= <-]; left; split; [lia | done]|].
        intros [[_ [= <-]] | [? _]]; [done | lia].
      * split; [done | intros [[_ ?] | [? _]]; [done | lia]].
    + split; [done | intros [[? _] | [? _]]; lia].
Qed.



(** X9. [_extract_endpoint_radiuses] returns one radius per branch: for a
    branch that ends on node [e >= 1], the radius at position [e - 1] (SWC
    counts from 1); a branch that ends on an index [e <= 0] gets the radius
    at position [len(radiuses) + e - 1], counted from the end of the array. *)
Theorem extract_endpoint_radiuses_entries (all_branches : list (list Z))
    (radiuses endpoint_radiuses : list A) :
  _extract_endpoint_radiuses all_branches radiuses = Ok endpoint_radiuses →
  length endpoint_radiuses = length all_branches ∧
  ∀ i b e, all_branches !! i = Some b → last b = Some e →
    ((1 ≤ e)%Z → endpoint_radiuses !! i = radiuses !! Z.to_nat (e - 1)) ∧
    ((e ≤ 0)%Z →
     endpoint_radiuses !! i = radiuses !! Z.to_nat (Z.of_nat (length radiuses) + e - 1)).
Proof.
  unfold _extract_endpoint_radiuses. intros H.
  apply mapM_Ok_lookup in H as [Hlen Hall]. split; [done|].
  intros i b e Hb He. destruct (Hall i b Hb) as (r & Hr & Hri).
  unfold py_last in Hr. rewrite He in Hr. cbn [mbind result_bind] in Hr.
  rewrite Hri. apply np_index_Ok in Hr as [[Hi Hx] | [Hi Hx]].
  - split; [by intros _ | intros; lia].
  - split; [intros; lia|]. intros _. rewrite <- Hx. do 2 f_equal. lia.
Qed.


End EndpointFacts.

(** ** [_build_parents], continued *)

Section BuildParentsMore.
Import Swc SwcFacts.






End BuildParentsMore.

(** ** [Channel.change_name] *)

Section RenameKeyFacts.
Import Channel.

Lemma str_find_underscore_app (a b : string) :
  str_find_underscore a = None →
  str_find_underscore (a +:+ b) = (λ n, String.length a + n) <$> str_find_underscore b.
Proof.
  induction a as [|c a IH]; csimpl.
  - intros _. change (EmptyString +:+ b) with b. by destruct (str_find_underscore b).
  - case_decide; [done|]. destruct (str_find_underscore a); [done|]. intros _.
    rewrite IH by done. by destruct (str_find_underscore b).
Qed.

Lemma str_drop_app (a b : string) : str_drop (String.length a) (a +:+ b) = b.
Proof. induction a as [|c a IH]; cbn [String.append String.length str_drop]; done. Qed.

Lemma str_last_app (a b : string) : b ≠ EmptyString → str_last (a +:+ b) = str_last b.
Proof.
  intros Hb. induction a as [|c a IH]; csimpl; [done|].
  rewrite IH. destruct (a +:+ b) eqn:Hab; [|done].
  destruct a; csimpl in Hab; [done | discriminate].
Qed.

Lemma str_last_single (key : string) :
  key ≠ EmptyString → ∃ c, str_last key = String c EmptyString ∧
                           ∃ body, key = body +:+ String c EmptyString.
Proof.
  induction key as [|c key IH]; [done|]. intros _. destruct key as [|c' key].
  - exists c. split; [done|]. by exists EmptyString.
  - destruct IH as (d & Hd & body & Hbody); [done|]. exists d. split; [exact Hd|].
    exists (String c body). exact (f_equal (String c) Hbody).
Qed.

Lemma str_find_underscore_last (key : string) :
  str_find_underscore key = None → str_find_underscore (str_last key) = None.
Proof.
  induction key as [|c key IH]; [done|]. csimpl. case_decide as Hc; [done|].
  destruct (str_find_underscore key) eqn:Hk; [done|]. intros _.
  destruct key as [|c' key]; csimpl; [by rewrite decide_False | by apply IH].
Qed.

(** X13. [change_name] replaces, in a key with an underscore, what stands
    before the first underscore: [pre_rest] becomes [new_name_rest]. *)
Theorem renamed_key_prefix (new_name pre rest : string) :
  str_find_underscore pre = None →
  renamed_key new_name (pre +:+ String "_" rest) = new_name +:+ String "_" rest.
Proof.
  intros Hpre. unfold renamed_key. rewrite str_find_underscore_app by done.
  csimpl. by rewrite Nat.add_0_r, str_drop_app.
Qed.


(** What follows the new name in a renamed key. *)
Lemma renamed_key_suffix (new_name key : string) :
  ∃ suffix, (∀ name, renamed_key name key = name +:+ suffix) ∧
    (key ≠ EmptyString → suffix ≠ EmptyString ∧
       ∀ name, str_find_underscore name = None →
               renamed_key new_name (name +:+ suffix) = new_name +:+ suffix).
Proof.
  unfold renamed_key. destruct (str_find_underscore key) as [n|] eqn:Hfind.
  - exists (str_drop n key). split; [done|]. intros _.
    assert (Hsuf : ∃ rest, str_drop n key = String "_" rest).
    { revert n Hfind. induction key as [|c key IH]; intros n; [done|]. csimpl.
      case_decide as Hc; [intros [= <-]; subst c; by eexists|].
      destruct (str_find_underscore key) as [m|]; [|done]. intros [= <-]. csimpl.
      by apply IH. }
    destruct Hsuf as [rest Hrest]. rewrite Hrest. split; [done|].
    intros name Hname. rewrite str_find_underscore_app by done. csimpl.
    by rewrite Nat.add_0_r, str_drop_app.
  - exists (str_last key). split; [done|]. intros Hne.
    destruct (str_last_single key Hne) as (c & Hc & _). rewrite Hc. split; [done|].
    intros name Hname. rewrite str_find_underscore_app by done.
    pose proof (str_find_underscore_last key Hfind) as Hl. rewrite Hc in Hl.
    rewrite Hl. csimpl. by rewrite str_last_app.
Qed.

(** X15. Renaming twice is renaming once: when the first name has no
    underscore, a non-empty key renamed to it and then to a second name is
    the key renamed to the second name. *)
Theorem renamed_key_twice (name1 name2 key : string) :
  str_find_underscore name1 = None → key ≠ EmptyString →
  renamed_key name2 (renamed_key name1 key) = renamed_key name2 key.
Proof.
  intros Hname Hkey.
  destruct (renamed_key_suffix name2 key) as (suffix & Hsuf & Hre).
  destruct (Hre Hkey) as [_ Htwice]. rewrite !Hsuf. by apply Htwice.
Qed.

End RenameKeyFacts.

Section RenameDictFacts.
Import Channel.
Context {A : Type}.

Lemma dict_get_set (d : list (string * A)) (k k' : string) (v : A) :
  dict_get (dict_set d k v) k' = if decide (k = k') then Some v else dict_get d k'.
Proof.
  induction d as [|[k0 v0] d IH]; csimpl.
  - repeat case_decide; congruence.
  - destruct (decide (k0 = k)) as [->|Hne]; csimpl.
    + repeat case_decide; congruence.
    + rewrite IH. repeat case_decide; congruence.
Qed.

Lemma dict_set_keys (d : list (string * A)) (k : string) (v : A) :
  NoDup d.*1 → NoDup (dict_set d k v).*1 ∧
  ∀ k', k' ∈ (dict_set d k v).*1 ↔ k' = k ∨ k' ∈ d.*1.
Proof.
  induction d as [|[k0 v0] d IH]; csimpl.
  - intros _. split; [repeat constructor; by intros ?%elem_of_nil|].
    intros k'. rewrite list_elem_of_singleton. split; [by left | by intros [? | ?%elem_of_nil]].
  - intros [Hk0 Hnd]%NoDup_cons. destruct (IH Hnd) as [IH1 IH2].
    destruct (decide (k0 = k)) as [->|Hne]; csimpl.
    + split; [by constructor|]. intros k'. rewrite elem_of_cons. tauto.
    + split.
      * constructor; [|done]. rewrite IH2. intros [? | ?]; congruence.
      * intros k'. rewrite !elem_of_cons, IH2. tauto.
Qed.

Lemma dict_set_fresh (d : list (string * A)) (k : string) (v : A) :
  k ∉ d.*1 → dict_set d k v = d ++ [(k, v)].
Proof.
  induction d as [|[k0 v0] d IH]; csimpl; [done|].
  intros Hk. rewrite decide_False by (intros ->; apply Hk; by left).
  rewrite IH; [done|]. intros Hin. apply Hk. by right.
Qed.

Lemma renamed_dict_from (new_name : string) (d acc : list (string * A)) (k' : string) :
  dict_get (foldl (λ acc item, dict_set acc (renamed_key new_name item.1) item.2) acc d) k'
  = match last (filter (λ item, renamed_key new_name item.1 = k') d) with
    | Some item => Some item.2
    | None => dict_get acc k'
    end.
Proof.
  revert acc. induction d as [|[k v] d IH]; intros acc; csimpl; [done|].
  rewrite IH, dict_get_set. destruct (decide (renamed_key new_name k = k')) as [Hk|Hk].
  - rewrite filter_cons_True by done.
    destruct (filter (λ item, renamed_key new_name item.1 = k') d) as [|i l] eqn:Hf; [done|].
    rewrite last_cons_cons. destruct (last (i :: l)) eqn:Hl; [done|].
    by apply last_None in Hl.
  - by rewrite filter_cons_False.
Qed.

(** X16. In the dictionary [change_name] builds, a new key holds the value
    of the last item, in the order of the old dictionary, whose key is
    renamed to it: when two old keys end alike, the later one wins. *)
Theorem renamed_dict_lookup (new_name : string) (d : list (string * A)) (k' : string) :
  dict_get (renamed_dict new_name d) k'
  = snd <$> last (filter (λ item, renamed_key new_name item.1 = k') d).
Proof.
  unfold renamed_dict. rewrite renamed_dict_from.
  by destruct (last (filter (λ item, renamed_key new_name item.1 = k') d)).
Qed.

Lemma renamed_dict_acc_keys (new_name : string) (d acc : list (string * A)) :
  NoDup acc.*1 →
  NoDup (foldl (λ acc item, dict_set acc (renamed_key new_name item.1) item.2) acc d).*1.
Proof.
  revert acc. induction d as [|[k v] d IH]; intros acc Hnd; csimpl; [done|].
  apply IH. by apply dict_set_keys.
Qed.

Lemma renamed_dict_acc_injective (new_name : string) (d acc : list (string * A)) :
  NoDup (acc.*1 ++ (renamed_key new_name <$> d.*1)) →
  foldl (λ acc item, dict_set acc (renamed_key new_name item.1) item.2) acc d
  = acc ++ (prod_map (renamed_key new_name) id <$> d).
Proof.
  revert acc. induction d as [|[k v] d IH]; intros acc Hnd; csimpl.
  - by rewrite app_nil_r.
  - csimpl in Hnd. apply NoDup_app in Hnd as (Hacc & Hdisj & Hd).
    apply NoDup_cons in Hd as [Hk Hd].
    rewrite dict_set_fresh by (intros Hin; apply (Hdisj _ Hin); by left).
    rewrite IH.
    + by rewrite <- app_assoc.
    + rewrite fmap_app. csimpl. rewrite <- app_assoc. csimpl.
      apply NoDup_app. split; [done|]. split; [|by constructor].
      intros x Hx. apply Hdisj in Hx. exact Hx.
Qed.

Lemma renamed_dict_no_collision (new_name : string) (d : list (string * A)) :
  NoDup (renamed_key new_name <$> d.*1) →
  renamed_dict new_name d = prod_map (renamed_key new_name) id <$> d.
Proof. intros Hnd. unfold renamed_dict. by rewrite renamed_dict_acc_injective. Qed.

(** X17. The dictionary [change_name] builds has every key once; when no
    two old keys are renamed to the same key, it has the items of the old
    dictionary in their order, each under its new key with its old value. *)
Theorem renamed_dict_items (new_name : string) (d : list (string * A)) :
  NoDup (renamed_dict new_name d).*1 ∧
  (NoDup (renamed_key new_name <$> d.*1) →
   renamed_dict new_name d = prod_map (renamed_key new_name) id <$> d).
Proof.
  split.
  - apply renamed_dict_acc_keys. constructor.
  - apply renamed_dict_no_collision.
Qed.

Lemma append_inj_r (a : string) : Inj (=) (=) (String.append a).
Proof.
  intros b b'. induction a as [|c a IH]; [done|]. intros Hb. apply IH.
  by injection Hb.
Qed.

Lemma dict_set_fmap_key (h : string → string) `{!Inj (=) (=) h}
    (d : list (string * A)) (k : string) (v : A) :
  dict_set (prod_map h id <$> d) (h k) v = prod_map h id <$> dict_set d k v.
Proof.
  induction d as [|[k0 v0] d IH]; [done|]. csimpl. rewrite IH.
  destruct (decide (k0 = k)) as [->|Hne]; [by rewrite decide_True|].
  rewrite decide_False; [done|]. by intros ?%(inj h).
Qed.

Lemma fold_dict_set_fmap_key (h f : string → string) `{!Inj (=) (=) h}
    (d acc : list (string * A)) :
  foldl (λ acc item, dict_set acc (h (f item.1)) item.2) (prod_map h id <$> acc) d
  = prod_map h id <$> foldl (λ acc item, dict_set acc (f item.1) item.2) acc d.
Proof.
  revert acc. induction d as [|[k v] d IH]; intros acc; [done|]. csimpl.
  by rewrite dict_set_fmap_key, IH.
Qed.

Lemma fold_dict_set_keys (f : string → string) (d acc : list (string * A)) :
  NoDup acc.*1 →
  NoDup (foldl (λ acc item, dict_set acc (f item.1) item.2) acc d).*1 ∧
  ∀ k, k ∈ (foldl (λ acc item, dict_set acc (f item.1) item.2) acc d).*1 →
       k ∈ acc.*1 ∨ k ∈ f <$> d.*1.
Proof.
  revert acc. induction d as [|[k v] d IH]; intros acc Hnd; csimpl.
  - split; [done|]. by left.
  - destruct (dict_set_keys acc (f k) v Hnd) as [Hnd' Hkeys].
    destruct (IH _ Hnd') as [IH1 IH2]. split; [done|].
    intros k0 [Hk0 | Hk0]%IH2.
    + apply Hkeys in Hk0 as [-> | ?]; [right; by left | by left].
    + right. by right.
Qed.

(** The renamed dictionary is the dictionary of the key endings with the
    new name put before every key. *)
Lemma renamed_dict_endings (new_name : string) (d : list (string * A)) :
  renamed_dict new_name d
  = prod_map (String.append new_name) id <$> renamed_dict EmptyString d.
Proof.
  pose proof (append_inj_r new_name) as Hinj.
  exact (fold_dict_set_fmap_key (String.append new_name) (renamed_key EmptyString) d []).
Qed.

Lemma fst_prod_map_key (h : string → string) (d : list (string * A)) :
  (prod_map h id <$> d).*1 = h <$> d.*1.
Proof. induction d as [|[k v] d IH]; [done|]. csimpl. by rewrite IH. Qed.

Lemma renamed_dict_twice (name1 name2 : string) (d : list (string * A)) :
  str_find_underscore name1 = None → EmptyString ∉ d.*1 →
  renamed_dict name2 (renamed_dict name1 d) = renamed_dict name2 d.
Proof.
  intros Hname Hkeys. rewrite (renamed_dict_endings name1), (renamed_dict_endings name2 d).
  destruct (fold_dict_set_keys (renamed_key EmptyString) d []) as [Hnd Hsub];
    [constructor|]. fold (renamed_dict EmptyString d) in Hnd, Hsub.
  assert (Hre : ∀ item, item ∈ renamed_dict EmptyString d →
            renamed_key name2 (name1 +:+ item.1) = name2 +:+ item.1).
  { intros item Hitem.
    destruct (Hsub item.1) as [?%elem_of_nil | Hin]; [by apply list_elem_of_fmap_2| done |].
    apply list_elem_of_fmap in Hin as (key & -> & Hkey).
    destruct (renamed_key_suffix name2 key) as (suffix & Hsuf & Htwice).
    rewrite (Hsuf EmptyString). change (EmptyString +:+ suffix) with suffix.
    apply Htwice; [|done]. by intros ->. }
  assert (Hmap : prod_map (renamed_key name2) id
                   <$> (prod_map (String.append name1) id <$> renamed_dict EmptyString d)
                 = prod_map (String.append name2) id <$> renamed_dict EmptyString d).
  { rewrite <- list_fmap_compose. apply Forall_fmap_ext_1, Forall_forall.
    intros [k v] Hitem. csimpl. unfold prod_map. csimpl. f_equal.
    exact (Hre (k, v) Hitem). }
  rewrite renamed_dict_no_collision; [exact Hmap|].
  rewrite <- (fst_prod_map_key (renamed_key name2)), Hmap, fst_prod_map_key.
  apply NoDup_fmap_2; [apply append_inj_r | done].
Qed.

(** X18. Two calls of [change_name] leave the object as the second call
    alone does, with the same outcome, when the first name has no
    underscore and neither dictionary has the empty string as a key. *)
Theorem change_name_twice (self : @names A) (name1 name2 : string) :
  str_find_underscore name1 = None →
  (∀ params, channel_params self = Some params → EmptyString ∉ params.*1) →
  (∀ states, channel_states self = Some states → EmptyString ∉ states.*1) →
  change_name (change_name self name1).1 name2 = change_name self name2.
Proof.
  intros Hname Hparams Hstates. unfold change_name.
  destruct (channel_params self) as [params|] eqn:Hp; csimpl; [|by rewrite Hp].
  destruct (channel_states self) as [states|] eqn:Hs; csimpl.
  - by rewrite !renamed_dict_twice by eauto.
  - by rewrite renamed_dict_twice by eauto.
Qed.

End RenameDictFacts.

(** ** [Network.init_morph] and [Network.step] together *)

Section NetworkMore.
Context `{O : Objects}.





(** X20. [step] cannot run on what [init_morph] leaves: [init_morph] stores
    the list of the cells' branch counts in [nbranches], and [step] hands
    [nbranches] to [jnp.reshape] as a dimension.  After a returning
    [init_morph], [step] returns no state, whatever the state, the time step,
    the stimulus and the collaborators. *)
Theorem step_after_init_morph_returns_nothing {C : Collaborators}
    (self self' : Network) (u : State) (dt : V) (i_inds : list Z) (i_current : list V) :
  init_morph self = Ok self' →
  ∀ st, (step self' u dt i_inds i_current).2 ≠ Ok st.
Proof.
  intros Hinit. apply init_morph_Ok in Hinit as (m & -> & _ & Hnb & _).
  by eapply step_needs_integer_nbranches.
Qed.

(** X21. [init_morph] reads the cells and [nseg] and assigns only its own
    attributes: a second call on the object it left returns that object
    again. *)
Theorem init_morph_idempotent {C : Collaborators} (self self' : Network) :
  init_morph self = Ok self' → init_morph self' = Ok self'.
Proof.
  intros Hinit. pose proof Hinit as (m & -> & _)%init_morph_Ok.
  unfold init_morph in *. cbn [cells nseg set_morph] in *.
  apply bind_Ok in Hinit as (counts & -> & Hinit). cbn [mbind result_bind] in *.
  apply bind_Ok in Hinit as (cp & -> & Hinit). cbn [mbind result_bind] in *.
  apply bind_Ok in Hinit as (cpl & -> & Hinit). cbn [mbind result_bind] in *.
  apply bind_Ok in Hinit as (cbl & -> & Hinit). cbn [mbind result_bind] in *.
  apply bind_Ok in Hinit as (kids & -> & Hinit). cbn [mbind result_bind] in *.
  apply bind_Ok in Hinit as (cik & -> & Hinit). cbn [mbind result_bind] in *.
  apply bind_Ok in Hinit as (cum & -> & Hinit). cbn [mbind result_bind] in *.
  apply bind_Ok in Hinit as (cck & -> & Hinit). cbn [mbind result_bind] in *.
  apply bind_Ok in Hinit as (cckl & -> & Hinit). cbn [mbind result_bind] in *.
  apply bind_Ok in Hinit as (nd & -> & Hinit). cbn [mbind result_bind] in *.
  injection Hinit as <-. reflexivity.
Qed.

(** X22. After a returning [init_morph], the attribute [cell] is a view of
    the object over a table with one row for each of the [nseg] compartments
    of every branch of every cell. *)
Theorem cell_view_after_init_morph {C : Collaborators} (self self' : Network) :
  init_morph self = Ok self' →
  ∃ cell_view,
    __getattr__ self' "cell" = Ok cell_view ∧
    pointer cell_view = self' ∧
    length (comp_index (view cell_view)) = nseg self * total_branches (cells self) ∧
    length (branch_index (view cell_view)) = nseg self * total_branches (cells self) ∧
    length (cell_index (view cell_view)) = nseg self * total_branches (cells self).
Proof.
  intros Hinit.
  apply init_morph_Ok in Hinit as (m & -> & _ & _ & _ & _ & _ & Hc & Hb & Hcell).
  eexists. split; [reflexivity|]. cbn. rewrite Hc, Hb, Hcell.
  rewrite length_fmap, length_seq, length_cell_index. done.
Qed.

(** X23. What the synapse step returns does not reach the result of
    [step]: two sets of collaborators that differ only in [_step_synapse],
    whose synapse steps return on the same calls and raise the same
    exceptions, leave the same object and give the same state. *)
Theorem step_ignores_synapse_step (C1 C2 : Collaborators) (self : Network) (u : State)
    (dt : V) (i_inds : list Z) (i_current : list V) :
  (∀ self, init_branch_conds (Collaborators := C1) self
           = init_branch_conds (Collaborators := C2) self) →
  (∀ u dt ch ps, step_channels (Collaborators := C1) u dt ch ps
                 = step_channels (Collaborators := C2) u dt ch ps) →
  (∀ v ii ic r l, get_external_input (Collaborators := C1) v ii ic r l
                  = get_external_input (Collaborators := C2) v ii ic r l) →
  (∀ kw, step_voltages (Collaborators := C1) kw = step_voltages (Collaborators := C2) kw) →
  (∀ u sc ps dt cs a b c d n,
     match _step_synapse (Collaborators := C1) u sc ps dt cs a b c d n,
           _step_synapse (Collaborators := C2) u sc ps dt cs a b c d n with
     | Ok _, Ok _ => True
     | Raise e1, Raise e2 => e1 = e2
     | _, _ => False
     end) →
  step (C := C1) self u dt i_inds i_current = step (C := C2) self u dt i_inds i_current.
Proof.
  intros Hinit Hsc Hext Hsolve Hsyn. unfold step.
  destruct (read_morph self nbranches) as [nb|]; [|done].
  rewrite Hinit.
  destruct (match branch_conds_fwd self with
            | Some _ => Ok self
            | None => init_branch_conds (Collaborators := C2) self
            end) as [self'|]; [|done].
  f_equal. unfold step_body, step_locals.
  destruct (py_getitem u "voltages") as [v|]; [|done]. cbn [mbind result_bind].
  destruct (py_index (branches self') 0) as [b|]; [|done]. cbn [mbind result_bind].
  destruct (py_index (compartments b) 0) as [c|]; [|done]. cbn [mbind result_bind].
  rewrite Hsc.
  destruct (step_channels u dt (channels c) (params self')) as [[ncs [vt ct]]|]; [|done].
  cbn [mbind result_bind].
  destruct (py_getitem (params self') "radius") as [r|]; [|done]. cbn [mbind result_bind].
  destruct (py_getitem (params self') "length") as [len|]; [|done].
  cbn [mbind result_bind].
  rewrite Hext. destruct (get_external_input v i_inds i_current r len) as [ie|]; [|done].
  cbn [mbind result_bind].
  destruct (read_morph self' cumsum_num_branches) as [cs|]; [|done].
  cbn [mbind result_bind].
  specialize (Hsyn u (syn_channels self') (params self') dt cs (pre_syn_cell_inds self')
                (pre_syn_inds self') (grouped_post_syn_inds self')
                (grouped_post_syns self') (nseg self')).
  destruct (_step_synapse (Collaborators := C1) u (syn_channels self') (params self') dt cs
              (pre_syn_cell_inds self') (pre_syn_inds self') (grouped_post_syn_inds self')
              (grouped_post_syns self') (nseg self')) as [[[ns1 sv1] sc1]|e1],
           (_step_synapse (Collaborators := C2) u (syn_channels self') (params self') dt cs
              (pre_syn_cell_inds self') (pre_syn_inds self') (grouped_post_syn_inds self')
              (grouped_post_syns self') (nseg self')) as [[[ns2 sv2] sc2]|e2];
    try done; [|by subst].
  cbn [mbind result_bind]. unfold step_solve_args. cbn [voltages v_terms const_terms i_ext].
  destruct (Jnp.reshape v nb (nseg self)) as [v2|]; [|done]. cbn [mbind result_bind].
  destruct (Jnp.reshape vt nb (nseg self)) as [t2|]; [|done]. cbn [mbind result_bind].
  destruct (Jnp.reshape ct nb (nseg self)) as [c2|]; [|done]. cbn [mbind result_bind].
  destruct (Jnp.reshape ie nb (nseg self)) as [e2|]; [|done]. cbn [mbind result_bind].
  destruct (read_morph self' nbranches) as [nb'|]; [|done]. cbn [mbind result_bind].
  rewrite Hsolve. done.
Qed.

Lemma reshape_Raise {A} (a : list A) (d : Jnp.branch_count) (m : nat) (e : exn) :
  Jnp.reshape a d m = Raise e →
  e = TypeError ∧ ∀ n, d = Jnp.BCInt n → length a ≠ n * m.
Proof.
  unfold Jnp.reshape. destruct d as [n|ns].
  - case_decide as Hlen; [discriminate|]. intros [= <-]. split; [done|].
    by intros n' [= <-].
  - intros [= <-]. split; [done|]. discriminate.
Qed.

Lemma step_locals_channels {C : Collaborators} (self : Network) (u : State) (dt : V)
    (i_inds : list Z) (i_current : list V) (l : Locals) :
  step_locals self u dt i_inds i_current = Ok l →
  ∃ ch, step_channels u dt ch (params self)
        = Ok (new_channel_states l, (v_terms l, const_terms l)).
Proof.
  unfold step_locals. intros H.
  apply bind_Ok in H as (v & _ & H).
  apply bind_Ok in H as (b & _ & H). apply bind_Ok in H as (c & _ & H).
  apply bind_Ok in H as ([ncs [vt ct]] & Hch & H).
  apply bind_Ok in H as (r & _ & H). apply bind_Ok in H as (len & _ & H).
  apply bind_Ok in H as (ie & _ & H). apply bind_Ok in H as (cs & _ & H).
  apply bind_Ok in H as ([[ns svt] sct] & _ & H). injection H as <-. cbn. eauto.
Qed.

Lemma py_index_0_Raise {A} (l : list A) (e : exn) :
  py_index l 0 = Raise e → e = IndexError ∧ l = [].
Proof. unfold py_index. destruct l; [|discriminate]. by intros [= <-]. Qed.

Lemma py_getitem_Raise {A} (d : gmap string A) (k : string) (e : exn) :
  py_getitem d k = Raise e → e = KeyError ∧ d !! k = None.
Proof. unfold py_getitem. destruct (d !! k); [discriminate|]. by intros [= <-]. Qed.

Lemma read_morph_Raise {A} (self : Network) (attribute : Morph → A) (e : exn) :
  read_morph self attribute = Raise e → e = AssertionError ∧ morph self = None.
Proof. unfold read_morph. destruct (morph self); [discriminate|]. by intros [= <-]. Qed.

(** X24. The exceptions [step] raises by itself, each with its cause: an
    exception [e] that no collaborator raises leaves [step] only as the
    [AssertionError] of an object without the attributes of [init_morph], the
    [KeyError] of a state without ["voltages"] or of parameters without
    ["radius"] or ["length"], the [IndexError] of an object without
    branches, of a first branch without compartments or of a channel step
    that returned no state, or the [TypeError] of a reshape whose sizes do
    not fit. *)
Theorem step_raises {C : Collaborators} (self : Network) (u : State) (dt : V)
    (i_inds : list Z) (i_current : list V) (e : exn) :
  (step self u dt i_inds i_current).2 = Raise e →
  (∀ self, init_branch_conds self ≠ Raise e) →
  (∀ u dt ch ps, step_channels u dt ch ps ≠ Raise e) →
  (∀ v ii ic r l, get_external_input v ii ic r l ≠ Raise e) →
  (∀ u sc ps dt cs a b c d n, _step_synapse u sc ps dt cs a b c d n ≠ Raise e) →
  (∀ kw, step_voltages kw ≠ Raise e) →
  (e = AssertionError ∧
   (morph self = None ∨ morph (step self u dt i_inds i_current).1 = None)) ∨
  (e = KeyError ∧
   (u !! "voltages" = None ∨
    params (step self u dt i_inds i_current).1 !! "radius" = None ∨
    params (step self u dt i_inds i_current).1 !! "length" = None)) ∨
  (e = IndexError ∧
   (branches (step self u dt i_inds i_current).1 = [] ∨
    (∃ b, head (branches (step self u dt i_inds i_current).1) = Some b ∧
          compartments b = []) ∨
    (∃ ch vt ct, step_channels u dt ch (params (step self u dt i_inds i_current).1)
                 = Ok ([], (vt, ct))))) ∨
  (e = TypeError ∧
   ∃ m l, morph self = Some m ∧
     step_locals (step self u dt i_inds i_current).1 u dt i_inds i_current = Ok l ∧
     ∀ n, nbranches m = Jnp.BCInt n →
          ¬ (length (voltages l) = n * nseg self ∧ length (v_terms l) = n * nseg self ∧
             length (const_terms l) = n * nseg self ∧ length (i_ext l) = n * nseg self)).
Proof.
  intros H Hinit Hsc Hext Hsyn Hsolve. revert H. unfold step, read_morph.
  destruct (morph self) as [m|] eqn:Hm; [|intros [= <-]; left; by eauto].
  assert (Hbody : ∀ self', step_body self' (nbranches m) (nseg self) u dt i_inds i_current
                           = Raise e →
    (e = AssertionError ∧ (Some m = None ∨ morph self' = None)) ∨
    (e = KeyError ∧
     (u !! "voltages" = None ∨ params self' !! "radius" = None ∨
      params self' !! "length" = None)) ∨
    (e = IndexError ∧
     (branches self' = [] ∨
      (∃ b, head (branches self') = Some b ∧ compartments b = []) ∨
      (∃ ch vt ct, step_channels u dt ch (params self') = Ok ([], (vt, ct))))) ∨
    (e = TypeError ∧
     ∃ m' l, Some m = Some m' ∧
       step_locals self' u dt i_inds i_current = Ok l ∧
       ∀ n, nbranches m' = Jnp.BCInt n →
            ¬ (length (voltages l) = n * nseg self ∧ length (v_terms l) = n * nseg self ∧
               length (const_terms l) = n * nseg self ∧ length (i_ext l) = n * nseg self))).
  { intros self' H. unfold step_body in H.
    apply bind_Raise in H as [H | (l & Hl & H)].
    - unfold step_locals in H.
      apply bind_Raise in H as [[-> Hu]%py_getitem_Raise | (v & _ & H)];
        [right; left; by eauto|].
      apply bind_Raise in H as [[-> Hb]%py_index_0_Raise | (b & Hb & H)];
        [right; right; left; by eauto|].
      apply bind_Raise in H as [[-> Hc]%py_index_0_Raise | (c & _ & H)].
      { right; right; left. split; [done|]. right; left. exists b. split; [|done].
        unfold py_index in Hb. destruct (branches self') as [|b' bs]; [done|].
        by injection Hb as ->. }
      apply bind_Raise in H as [H | ([ncs [vt ct]] & _ & H)]; [by apply Hsc in H|].
      apply bind_Raise in H as [[-> Hr]%py_getitem_Raise | (r & _ & H)];
        [right; left; by eauto|].
      apply bind_Raise in H as [[-> Hr]%py_getitem_Raise | (len & _ & H)];
        [right; left; by eauto|].
      apply bind_Raise in H as [H | (ie & _ & H)]; [by apply Hext in H|].
      apply bind_Raise in H as [[-> Hr]%read_morph_Raise | (cs & _ & H)];
        [left; by eauto|].
      apply bind_Raise in H as [H | ([[ns svt] sct] & _ & H)]; [by apply Hsyn in H|].
      discriminate.
    - apply bind_Raise in H as [H | (kw & Hkw & H)].
      + assert (Htype : ∀ a, Jnp.reshape a (nbranches m) (nseg self) = Raise e →
                  (a = voltages l ∨ a = v_terms l ∨ a = const_terms l ∨ a = i_ext l) →
                  e = TypeError ∧
                  ∀ n, nbranches m = Jnp.BCInt n →
                    ¬ (length (voltages l) = n * nseg self ∧
                       length (v_terms l) = n * nseg self ∧
                       length (const_terms l) = n * nseg self ∧
                       length (i_ext l) = n * nseg self)).
        { intros a [-> Ha]%reshape_Raise Hwhich. split; [done|].
          intros n Hn (H1 & H2 & H3 & H4). specialize (Ha n Hn).
          destruct Hwhich as [-> | [-> | [-> | ->]]]; done. }
        unfold step_solve_args in H.
        apply bind_Raise in H as [H | (v2 & _ & H)].
        { right; right; right. destruct (Htype _ H) as [-> ?]; [by eauto|].
          split; [done|]. by exists m, l. }
        apply bind_Raise in H as [H | (t2 & _ & H)].
        { right; right; right. destruct (Htype _ H) as [-> ?]; [by eauto|].
          split; [done|]. by exists m, l. }
        apply bind_Raise in H as [H | (c2 & _ & H)].
        { right; right; right. destruct (Htype _ H) as [-> ?]; [by eauto|].
          split; [done|]. by exists m, l. }
        apply bind_Raise in H as [H | (e2 & _ & H)].
        { right; right; right. destruct (Htype _ H) as [-> ?]; [by eauto 6|].
          split; [done|]. by exists m, l. }
        apply bind_Raise in H as [[-> Hr]%read_morph_Raise | (nb & _ & H)];
          [left; by eauto | discriminate].
      + apply bind_Raise in H as [H | (nv & _ & H)]; [by apply Hsolve in H|].
        apply bind_Raise in H as [[-> Hncs]%py_index_0_Raise | (fs & _ & H)];
          [|discriminate].
        right; right; left. split; [done|]. right; right.
        destruct (step_locals_channels _ _ _ _ _ _ Hl) as [ch Hch].
        rewrite Hncs in Hch. eauto. }
  destruct (branch_conds_fwd self) as [c|].
  - cbn [fst snd]. apply Hbody.
  - destruct (init_branch_conds self) as [self'|e'] eqn:Hi.
    + cbn [fst snd]. apply Hbody.
    + cbn [fst snd]. intros [= ->]. by apply Hinit in Hi.
Qed.

End NetworkMore.

(** ** The further properties at work *)

Section FurtherRuns.
Import Swc Channel Fixture.
#[local] Existing Instance Fixture.objects.

Lemma split_into_branches_later_branches_witness :
  ∃ p i rest,
    [3; 4]%Z = p :: i :: rest ∧
    p ∈ split_branch_starts swc_rows ∧
    {| ind := i; parent := p |} ∈ swc_rows.
Proof. apply (split_into_branches_later_branches swc_rows 0). reflexivity. Defined.

Lemma split_into_branches_chain_witness :
  _split_into_branches swc_chain = [[1; 2; 3]%Z].
Proof.
  apply (split_into_branches_chain swc_chain).
  intros i c c' Hc Hc'.
  destruct i as [|[|[|i]]]; try discriminate Hc';
    injection Hc as <-; injection Hc' as <-; reflexivity.
Defined.



Lemma remove_single_branch_artifacts_identity_witness :
  _remove_single_branch_artifacts swc_branches = Ok swc_branches.
Proof.
  apply (remove_single_branch_artifacts_identity swc_branches [1; 3; 3]%Z).
  - repeat constructor.
  - intros v. unfold occurrences. cbn [drop].
    destruct (decide (v = 3%Z)) as [->|Hv]; [discriminate|].
    rewrite !filter_cons_False by congruence. discriminate.
Defined.


Lemma extract_endpoint_radiuses_entries_witness :
  length [30; 40; 50]%Z = length swc_branches ∧
  [30; 40; 50]%Z !! 1 = swc_radiuses !! 3.
Proof.
  destruct (extract_endpoint_radiuses_entries swc_branches swc_radiuses [30; 40; 50]%Z
              eq_refl) as [Hlen Hall].
  split; [exact Hlen|].
  apply (proj1 (Hall 1 [3; 4]%Z 4%Z eq_refl eq_refl)). lia.
Defined.




Lemma renamed_key_prefix_witness :
  renamed_key "K" ("Na" +:+ String "_" "gNa") = "K" +:+ String "_" "gNa".
Proof. apply (renamed_key_prefix "K" "Na" "gNa"). reflexivity. Defined.


Lemma renamed_key_twice_witness :
  renamed_key "Ca" (renamed_key "K" "Na_gNa") = renamed_key "Ca" "Na_gNa".
Proof. apply (renamed_key_twice "K" "Ca" "Na_gNa"); [reflexivity | discriminate]. Defined.

Lemma renamed_dict_items_witness :
  renamed_dict "K" [("Na_gNa", 120%Z); ("Na_eNa", 50%Z)]
  = prod_map (renamed_key "K") id <$> [("Na_gNa", 120%Z); ("Na_eNa", 50%Z)].
Proof.
  apply (proj2 (renamed_dict_items "K" [("Na_gNa", 120%Z); ("Na_eNa", 50%Z)])).
  apply NoDup_cons. split.
  - intros Hin. apply list_elem_of_singleton in Hin. discriminate Hin.
  - apply NoDup_singleton.
Defined.

Lemma change_name_twice_witness :
  change_name (change_name sodium "K").1 "Ca" = change_name sodium "Ca".
Proof.
  apply (change_name_twice sodium "K" "Ca").
  - reflexivity.
  - intros params [= <-] Hin.
    repeat (apply elem_of_cons in Hin as [Hin | Hin]; [discriminate Hin|]).
    by apply elem_of_nil in Hin.
  - intros states [= <-] Hin.
    repeat (apply elem_of_cons in Hin as [Hin | Hin]; [discriminate Hin|]).
    by apply elem_of_nil in Hin.
Defined.


Lemma step_after_init_morph_returns_nothing_witness :
  ¬ ∃ st, (stepped (indexed two_cells)).2 = Ok st.
Proof.
  intros [st Hst]. revert Hst.
  apply (step_after_init_morph_returns_nothing (C := collaborators) two_cells).
  vm_compute. reflexivity.
Defined.

Lemma init_morph_idempotent_witness :
  init_morph (C := collaborators) (indexed two_cells) = Ok (indexed two_cells).
Proof.
  apply (init_morph_idempotent (C := collaborators) two_cells).
  vm_compute. reflexivity.
Defined.

Lemma cell_view_after_init_morph_witness :
  ∃ cell_view,
    __getattr__ (indexed two_cells) "cell" = Ok cell_view ∧
    pointer cell_view = indexed two_cells ∧
    length (comp_index (view cell_view)) = nseg two_cells * total_branches (cells two_cells) ∧
    length (branch_index (view cell_view))
    = nseg two_cells * total_branches (cells two_cells) ∧
    length (cell_index (view cell_view)) = nseg two_cells * total_branches (cells two_cells).
Proof.
  apply (cell_view_after_init_morph (C := collaborators) two_cells).
  vm_compute. reflexivity.
Defined.

Lemma step_ignores_synapse_step_witness :
  step (C := collaborators) one_compartment u0 0%Z [] []
  = step (C := collaborators_without_synapses) one_compartment u0 0%Z [] [].
Proof.
  apply (step_ignores_synapse_step collaborators collaborators_without_synapses).
  - reflexivity.
  - reflexivity.
  - reflexivity.
  - reflexivity.
  - intros. exact I.
Defined.

Lemma step_raises_witness :
  (TypeError = AssertionError ∧
   (morph (indexed two_cells) = None ∨ morph (stepped (indexed two_cells)).1 = None)) ∨
  (TypeError = KeyError ∧
   (u0 !! "voltages" = None ∨
    params (stepped (indexed two_cells)).1 !! "radius" = None ∨
    params (stepped (indexed two_cells)).1 !! "length" = None)) ∨
  (TypeError = IndexError ∧
   (branches (stepped (indexed two_cells)).1 = [] ∨
    (∃ b, head (branches (stepped (indexed two_cells)).1) = Some b ∧
          compartments b = []) ∨
    (∃ ch vt ct,
       step_channels (Collaborators := collaborators) u0 0%Z ch
         (params (stepped (indexed two_cells)).1) = Ok ([], (vt, ct))))) ∨
  (TypeError = TypeError ∧
   ∃ m l, morph (indexed two_cells) = Some m ∧
     step_locals (C := collaborators) (stepped (indexed two_cells)).1 u0 0%Z [] [] = Ok l ∧
     ∀ n, nbranches m = Jnp.BCInt n →
          ¬ (length (voltages l) = n * nseg (indexed two_cells) ∧
             length (v_terms l) = n * nseg (indexed two_cells) ∧
             length (const_terms l) = n * nseg (indexed two_cells) ∧
             length (i_ext l) = n * nseg (indexed two_cells))).
Proof.
  apply (step_raises (C := collaborators) (indexed two_cells) u0 0%Z [] [] TypeError).
  - vm_compute. reflexivity.
  - discriminate.
  - discriminate.
  - discriminate.
  - discriminate.
  - discriminate.
Defined.

End FurtherRuns.
